(** * Typing-signature page: a shallow embedding of [src/routes/+page.svelte]

    The component keeps a typed letter sequence and a display text, fades the
    on-screen keyboard with two chained timers, strokes a polyline through the
    key centres of the typed letters and serialises the same geometry to an SVG
    document or a PNG snapshot.

    Modelling conventions.
    - The module-level [let] variables of the script become the fields of
      [State]; every handler is a function [State -> State].
    - The host (browser) is part of the state: the clock [now], the queue of
      pending [setTimeout] callbacks, the rendered keyboard [dom] and the list
      of files handed to the download mechanism.
    - JavaScript numbers are rationals [Q] (coordinates, widths, opacity) and
      integers [Z] (milliseconds); nothing below depends on rounding.
    - Strings are [string] over 8-bit characters; case conversion acts on the
      ASCII letters and leaves every other character alone.
    - [keyPositions] is a [gmap] keyed by the letter (own properties only). *)

From Stdlib Require Import ZArith QArith Ascii String List Lia.
From stdpp Require Import gmap strings list.

Local Open Scope string_scope.
Local Open Scope Z_scope.

(** ** Strings: the JavaScript string methods the handlers call *)

Definition is_upper (c : ascii) : bool :=
  (Nat.leb 65 (nat_of_ascii c) && Nat.leb (nat_of_ascii c) 90)%bool.

Definition is_lower (c : ascii) : bool :=
  (Nat.leb 97 (nat_of_ascii c) && Nat.leb (nat_of_ascii c) 122)%bool.

Definition is_letter (c : ascii) : bool := (is_upper c || is_lower c)%bool.

Definition upper_ascii (c : ascii) : ascii :=
  if is_lower c then ascii_of_nat (nat_of_ascii c - 32) else c.

Definition lower_ascii (c : ascii) : ascii :=
  if is_upper c then ascii_of_nat (nat_of_ascii c + 32) else c.

(** [String.prototype.toUpperCase] and [toLowerCase]. *)
Fixpoint toUpperCase (s : string) : string :=
  match s with
  | EmptyString => EmptyString
  | String c r => String (upper_ascii c) (toUpperCase r)
  end.

Fixpoint toLowerCase (s : string) : string :=
  match s with
  | EmptyString => EmptyString
  | String c r => String (lower_ascii c) (toLowerCase r)
  end.

(** [key.match(/^[A-Z]$/)]: exactly one character, an upper-case letter. *)
Definition matchSingleUpper (key : string) : bool :=
  match key with
  | String c EmptyString => is_upper c
  | _ => false
  end.

(** [lastChar.match(/[a-z]/i)]: some character is an ASCII letter. *)
Fixpoint matchAnyLetter (s : string) : bool :=
  match s with
  | EmptyString => false
  | String c r => (is_letter c || matchAnyLetter r)%bool
  end.

(** The last character of a string, when there is one. *)
Fixpoint last_char (s : string) : option ascii :=
  match s with
  | EmptyString => None
  | String c r => match r with EmptyString => Some c | String _ _ => last_char r end
  end.

(** [s[s.length - 1]] as the one-character string JavaScript returns. *)
Definition lastCharOf (s : string) : string :=
  match last_char s with
  | Some c => String c EmptyString
  | None => EmptyString
  end.

(** [s.slice(0, -1)]. *)
Fixpoint slice_init (s : string) : string :=
  match s with
  | EmptyString => EmptyString
  | String c r => match r with EmptyString => EmptyString | String _ _ => String c (slice_init r) end
  end.

(** [s.endsWith(' ')]. *)
Definition endsWithSpace (s : string) : bool :=
  match last_char s with
  | Some c => Ascii.eqb c " "
  | None => false
  end.

(** The class [\s] restricted to the 8-bit characters of the model. *)
Definition is_space (c : ascii) : bool :=
  let n := nat_of_ascii c in
  (Nat.leb 9 n && Nat.leb n 13 || Nat.eqb n 32 || Nat.eqb n 160)%bool.

(** [s.replace(/\s+/g, '-')]: every maximal run of white space becomes one
    hyphen.  [inrun] says that the previous character was white space. *)
Fixpoint replaceSpaces (inrun : bool) (s : string) : string :=
  match s with
  | EmptyString => EmptyString
  | String c r =>
      if is_space c
      then (if inrun then replaceSpaces true r else String "-" (replaceSpaces true r))
      else String c (replaceSpaces false r)
  end.

(** ** Type definitions of the script *)

Record KeyPosition := { x : Q; y : Q }.

Inductive Theme := dark | light | neon.
Inductive KeyShape := rounded | square | circular.
Inductive LineStyle := solid | dashed | dotted.

Record KeyboardSettings := {
  theme : Theme;
  keyShape : KeyShape;
  is3D : bool;
  primaryColor : string;
  hoverColor : string;
  textColor : string }.

Record LineSettings := {
  color : string;
  width : Q;
  style : LineStyle;
  glow : bool;
  dotSize : Q }.

Record Settings := { keyboard : KeyboardSettings; lines : LineSettings }.

(** ** The drawing surface *)

Inductive PathCmd :=
| MoveTo (px py : Q)
| LineTo (px py : Q).

(** The part of a 2D context the script writes: the stroke style and the
    current path. *)
Record Context2D := {
  strokeStyle : string;
  lineWidth : Q;
  lineCap : string;
  shadowColor : string;
  shadowBlur : Q;
  lineDash : list Q;
  path : list PathCmd }.

(** A canvas: its size and what has been painted on it since it was last
    cleared; each [stroke()] paints the context as it stands. *)
Record Canvas := {
  cwidth : Q;
  cheight : Q;
  painted : list Context2D }.

(** ** Export artefacts *)

Record SvgPath := {
  d : list PathCmd;
  stroke : string;
  stroke_width : Q;
  stroke_dasharray : string;
  path_filter : bool }.

Record SvgCircle := {
  cx : Q;
  cy : Q;
  r : Q;
  fill : string;
  circle_filter : bool }.

(** The pieces appended to [svgContent] between the opening and the closing
    tag, in order. *)
Inductive SvgElem :=
| GlowDefs
| PathElem (p : SvgPath)
| CircleElem (c : SvgCircle).

(** [canvas?.width] is [undefined] when the canvas is not bound. *)
Record SvgDoc := {
  svg_width : option Q;
  svg_height : option Q;
  elems : list SvgElem }.

Inductive FileBody :=
| SvgBody (doc : SvgDoc)
| PngBody (snapshot : Canvas).

Record Download := { filename : string; body : FileBody }.

(** ** Host: timers and the rendered keyboard *)

Inductive Callback :=
| CbRedraw    (* calculateKeyPositions(); redrawLines() *)
| CbFade      (* the 2000 ms callback of startFadeTimer *)
| CbReveal.   (* the nested 1000 ms callback *)

Record Timer := { tid : nat; due : Z; cb : Callback }.

Record DOMRect := { rleft : Q; rtop : Q; rwidth : Q; rheight : Q }.

(** ** Component state *)

Record State := {
  canvas : option Canvas;
  ctx : option Context2D;
  typedSequence : list string;
  currentText : string;
  keyboardVisible : bool;
  keyboardOpacity : Q;
  showExportButtons : bool;
  showSettings : bool;
  fadeTimeout : option nat;
  exportTimeout : option nat;
  isHovering : bool;
  settings : Settings;
  keyPositions : gmap string KeyPosition;
  (* host *)
  now : Z;
  timers : list Timer;
  nextTimerId : nat;
  dom : option (list (string * DOMRect));
  downloads : list Download }.

Definition with_canvas (v : option Canvas) (s : State) : State :=
  {| canvas := v; ctx := ctx s; typedSequence := typedSequence s;
     currentText := currentText s; keyboardVisible := keyboardVisible s;
     keyboardOpacity := keyboardOpacity s; showExportButtons := showExportButtons s;
     showSettings := showSettings s; fadeTimeout := fadeTimeout s;
     exportTimeout := exportTimeout s; isHovering := isHovering s; settings := settings s;
     keyPositions := keyPositions s; now := now s; timers := timers s;
     nextTimerId := nextTimerId s; dom := dom s; downloads := downloads s |}.
Definition with_ctx (v : option Context2D) (s : State) : State :=
  {| canvas := canvas s; ctx := v; typedSequence := typedSequence s;
     currentText := currentText s; keyboardVisible := keyboardVisible s;
     keyboardOpacity := keyboardOpacity s; showExportButtons := showExportButtons s;
     showSettings := showSettings s; fadeTimeout := fadeTimeout s;
     exportTimeout := exportTimeout s; isHovering := isHovering s; settings := settings s;
     keyPositions := keyPositions s; now := now s; timers := timers s;
     nextTimerId := nextTimerId s; dom := dom s; downloads := downloads s |}.
Definition with_typedSequence (v : list string) (s : State) : State :=
  {| canvas := canvas s; ctx := ctx s; typedSequence := v; currentText := currentText s;
     keyboardVisible := keyboardVisible s; keyboardOpacity := keyboardOpacity s;
     showExportButtons := showExportButtons s; showSettings := showSettings s;
     fadeTimeout := fadeTimeout s; exportTimeout := exportTimeout s;
     isHovering := isHovering s; settings := settings s; keyPositions := keyPositions s;
     now := now s; timers := timers s; nextTimerId := nextTimerId s; dom := dom s;
     downloads := downloads s |}.
Definition with_currentText (v : string) (s : State) : State :=
  {| canvas := canvas s; ctx := ctx s; typedSequence := typedSequence s; currentText := v;
     keyboardVisible := keyboardVisible s; keyboardOpacity := keyboardOpacity s;
     showExportButtons := showExportButtons s; showSettings := showSettings s;
     fadeTimeout := fadeTimeout s; exportTimeout := exportTimeout s;
     isHovering := isHovering s; settings := settings s; keyPositions := keyPositions s;
     now := now s; timers := timers s; nextTimerId := nextTimerId s; dom := dom s;
     downloads := downloads s |}.
Definition with_keyboardVisible (v : bool) (s : State) : State :=
  {| canvas := canvas s; ctx := ctx s; typedSequence := typedSequence s;
     currentText := currentText s; keyboardVisible := v;
     keyboardOpacity := keyboardOpacity s; showExportButtons := showExportButtons s;
     showSettings := showSettings s; fadeTimeout := fadeTimeout s;
     exportTimeout := exportTimeout s; isHovering := isHovering s; settings := settings s;
     keyPositions := keyPositions s; now := now s; timers := timers s;
     nextTimerId := nextTimerId s; dom := dom s; downloads := downloads s |}.
Definition with_keyboardOpacity (v : Q) (s : State) : State :=
  {| canvas := canvas s; ctx := ctx s; typedSequence := typedSequence s;
     currentText := currentText s; keyboardVisible := keyboardVisible s;
     keyboardOpacity := v; showExportButtons := showExportButtons s;
     showSettings := showSettings s; fadeTimeout := fadeTimeout s;
     exportTimeout := exportTimeout s; isHovering := isHovering s; settings := settings s;
     keyPositions := keyPositions s; now := now s; timers := timers s;
     nextTimerId := nextTimerId s; dom := dom s; downloads := downloads s |}.
Definition with_showExportButtons (v : bool) (s : State) : State :=
  {| canvas := canvas s; ctx := ctx s; typedSequence := typedSequence s;
     currentText := currentText s; keyboardVisible := keyboardVisible s;
     keyboardOpacity := keyboardOpacity s; showExportButtons := v;
     showSettings := showSettings s; fadeTimeout := fadeTimeout s;
     exportTimeout := exportTimeout s; isHovering := isHovering s; settings := settings s;
     keyPositions := keyPositions s; now := now s; timers := timers s;
     nextTimerId := nextTimerId s; dom := dom s; downloads := downloads s |}.
Definition with_showSettings (v : bool) (s : State) : State :=
  {| canvas := canvas s; ctx := ctx s; typedSequence := typedSequence s;
     currentText := currentText s; keyboardVisible := keyboardVisible s;
     keyboardOpacity := keyboardOpacity s; showExportButtons := showExportButtons s;
     showSettings := v; fadeTimeout := fadeTimeout s; exportTimeout := exportTimeout s;
     isHovering := isHovering s; settings := settings s; keyPositions := keyPositions s;
     now := now s; timers := timers s; nextTimerId := nextTimerId s; dom := dom s;
     downloads := downloads s |}.
Definition with_fadeTimeout (v : option nat) (s : State) : State :=
  {| canvas := canvas s; ctx := ctx s; typedSequence := typedSequence s;
     currentText := currentText s; keyboardVisible := keyboardVisible s;
     keyboardOpacity := keyboardOpacity s; showExportButtons := showExportButtons s;
     showSettings := showSettings s; fadeTimeout := v; exportTimeout := exportTimeout s;
     isHovering := isHovering s; settings := settings s; keyPositions := keyPositions s;
     now := now s; timers := timers s; nextTimerId := nextTimerId s; dom := dom s;
     downloads := downloads s |}.
Definition with_exportTimeout (v : option nat) (s : State) : State :=
  {| canvas := canvas s; ctx := ctx s; typedSequence := typedSequence s;
     currentText := currentText s; keyboardVisible := keyboardVisible s;
     keyboardOpacity := keyboardOpacity s; showExportButtons := showExportButtons s;
     showSettings := showSettings s; fadeTimeout := fadeTimeout s; exportTimeout := v;
     isHovering := isHovering s; settings := settings s; keyPositions := keyPositions s;
     now := now s; timers := timers s; nextTimerId := nextTimerId s; dom := dom s;
     downloads := downloads s |}.
Definition with_isHovering (v : bool) (s : State) : State :=
  {| canvas := canvas s; ctx := ctx s; typedSequence := typedSequence s;
     currentText := currentText s; keyboardVisible := keyboardVisible s;
     keyboardOpacity := keyboardOpacity s; showExportButtons := showExportButtons s;
     showSettings := showSettings s; fadeTimeout := fadeTimeout s;
     exportTimeout := exportTimeout s; isHovering := v; settings := settings s;
     keyPositions := keyPositions s; now := now s; timers := timers s;
     nextTimerId := nextTimerId s; dom := dom s; downloads := downloads s |}.
Definition with_settings (v : Settings) (s : State) : State :=
  {| canvas := canvas s; ctx := ctx s; typedSequence := typedSequence s;
     currentText := currentText s; keyboardVisible := keyboardVisible s;
     keyboardOpacity := keyboardOpacity s; showExportButtons := showExportButtons s;
     showSettings := showSettings s; fadeTimeout := fadeTimeout s;
     exportTimeout := exportTimeout s; isHovering := isHovering s; settings := v;
     keyPositions := keyPositions s; now := now s; timers := timers s;
     nextTimerId := nextTimerId s; dom := dom s; downloads := downloads s |}.
Definition with_keyPositions (v : gmap string KeyPosition) (s : State) : State :=
  {| canvas := canvas s; ctx := ctx s; typedSequence := typedSequence s;
     currentText := currentText s; keyboardVisible := keyboardVisible s;
     keyboardOpacity := keyboardOpacity s; showExportButtons := showExportButtons s;
     showSettings := showSettings s; fadeTimeout := fadeTimeout s;
     exportTimeout := exportTimeout s; isHovering := isHovering s; settings := settings s;
     keyPositions := v; now := now s; timers := timers s; nextTimerId := nextTimerId s;
     dom := dom s; downloads := downloads s |}.
Definition with_now (v : Z) (s : State) : State :=
  {| canvas := canvas s; ctx := ctx s; typedSequence := typedSequence s;
     currentText := currentText s; keyboardVisible := keyboardVisible s;
     keyboardOpacity := keyboardOpacity s; showExportButtons := showExportButtons s;
     showSettings := showSettings s; fadeTimeout := fadeTimeout s;
     exportTimeout := exportTimeout s; isHovering := isHovering s; settings := settings s;
     keyPositions := keyPositions s; now := v; timers := timers s;
     nextTimerId := nextTimerId s; dom := dom s; downloads := downloads s |}.
Definition with_timers (v : list Timer) (s : State) : State :=
  {| canvas := canvas s; ctx := ctx s; typedSequence := typedSequence s;
     currentText := currentText s; keyboardVisible := keyboardVisible s;
     keyboardOpacity := keyboardOpacity s; showExportButtons := showExportButtons s;
     showSettings := showSettings s; fadeTimeout := fadeTimeout s;
     exportTimeout := exportTimeout s; isHovering := isHovering s; settings := settings s;
     keyPositions := keyPositions s; now := now s; timers := v;
     nextTimerId := nextTimerId s; dom := dom s; downloads := downloads s |}.
Definition with_nextTimerId (v : nat) (s : State) : State :=
  {| canvas := canvas s; ctx := ctx s; typedSequence := typedSequence s;
     currentText := currentText s; keyboardVisible := keyboardVisible s;
     keyboardOpacity := keyboardOpacity s; showExportButtons := showExportButtons s;
     showSettings := showSettings s; fadeTimeout := fadeTimeout s;
     exportTimeout := exportTimeout s; isHovering := isHovering s; settings := settings s;
     keyPositions := keyPositions s; now := now s; timers := timers s; nextTimerId := v;
     dom := dom s; downloads := downloads s |}.
Definition with_dom (v : option (list (string * DOMRect))) (s : State) : State :=
  {| canvas := canvas s; ctx := ctx s; typedSequence := typedSequence s;
     currentText := currentText s; keyboardVisible := keyboardVisible s;
     keyboardOpacity := keyboardOpacity s; showExportButtons := showExportButtons s;
     showSettings := showSettings s; fadeTimeout := fadeTimeout s;
     exportTimeout := exportTimeout s; isHovering := isHovering s; settings := settings s;
     keyPositions := keyPositions s; now := now s; timers := timers s;
     nextTimerId := nextTimerId s; dom := v; downloads := downloads s |}.
Definition with_downloads (v : list Download) (s : State) : State :=
  {| canvas := canvas s; ctx := ctx s; typedSequence := typedSequence s;
     currentText := currentText s; keyboardVisible := keyboardVisible s;
     keyboardOpacity := keyboardOpacity s; showExportButtons := showExportButtons s;
     showSettings := showSettings s; fadeTimeout := fadeTimeout s;
     exportTimeout := exportTimeout s; isHovering := isHovering s; settings := settings s;
     keyPositions := keyPositions s; now := now s; timers := timers s;
     nextTimerId := nextTimerId s; dom := dom s; downloads := v |}.

Definition defaultSettings : Settings :=
  {| keyboard := {| theme := dark; keyShape := rounded; is3D := false;
                    primaryColor := "dark"; hoverColor := "#4b5563";
                    textColor := "#ffffff" |};
     lines := {| color := "#ffffff"; width := 4; style := solid; glow := true;
                 dotSize := 5 |} |}.

Definition keyboardLayout : list (list string) :=
  [ ["Q"; "W"; "E"; "R"; "T"; "Y"; "U"; "I"; "O"; "P"];
    ["A"; "S"; "D"; "F"; "G"; "H"; "J"; "K"; "L"];
    ["Z"; "X"; "C"; "V"; "B"; "N"; "M"] ].

(** The values the script gives its variables, on a page whose canvas
    element is [cv] and whose keyboard renders as [layout]. *)
Definition initial (cv : option Canvas) (layout : option (list (string * DOMRect))) : State :=
  {| canvas := cv; ctx := None; typedSequence := []; currentText := "";
     keyboardVisible := true; keyboardOpacity := 1; showExportButtons := false;
     showSettings := false; fadeTimeout := None; exportTimeout := None;
     isHovering := false; settings := defaultSettings; keyPositions := ∅;
     now := 0; timers := []; nextTimerId := 1; dom := layout; downloads := [] |}.

(** ** Timers *)

Definition setTimeout (f : Callback) (delay : Z) (s : State) : nat * State :=
  let id := nextTimerId s in
  (id, with_nextTimerId (S id)
         (with_timers (timers s ++ [{| tid := id; due := now s + delay; cb := f |}]) s)).

Definition clearTimeout (h : option nat) (s : State) : State :=
  match h with
  | None => s
  | Some id => with_timers (filter (λ t, tid t ≠ id) (timers s)) s
  end.

(** ** Key position calculation *)

Definition centre (rect : DOMRect) : KeyPosition :=
  {| x := (rleft rect + rwidth rect / 2)%Q; y := (rtop rect + rheight rect / 2)%Q |}.

Definition calculateKeyPositions (s : State) : State :=
  match dom s with
  | None => s
  | Some keys =>
      with_keyPositions
        (foldl (λ m k, match fst k with
                       | EmptyString => m
                       | letter => <[letter := centre (snd k)]> m
                       end) (keyPositions s) keys) s
  end.

(** ** Line drawing engine *)

(** One iteration of the [for] loop shared by [redrawLines] and
    [exportAsSVG]: the commands issued for the pair starting at index [i]. *)
Definition segment (sq : list string) (pos : gmap string KeyPosition) (i : nat) : list PathCmd :=
  match sq !! i, sq !! (i + 1)%nat with
  | Some currentKey, Some nextKey =>
      match pos !! currentKey, pos !! nextKey with
      | Some currentPos, Some nextPos =>
          (if Nat.eqb i 0 then [MoveTo (x currentPos) (y currentPos)] else [])
          ++ [LineTo (x nextPos) (y nextPos)]
      | _, _ => []
      end
  | _, _ => []
  end.

(** [for (let i = 0; i < typedSequence.length - 1; i++)]. *)
Definition polyline (sq : list string) (pos : gmap string KeyPosition) : list PathCmd :=
  concat (map (segment sq pos) (seq 0 (length sq - 1))).

Definition dashPattern (st : LineStyle) : list Q :=
  match st with
  | dashed => [10%Q; 5%Q]
  | dotted => [2%Q; 8%Q]
  | solid => []
  end.

Definition clearRect (cv : Canvas) : Canvas :=
  {| cwidth := cwidth cv; cheight := cheight cv; painted := [] |}.

Definition strokeOn (c : Context2D) (cv : Canvas) : Canvas :=
  {| cwidth := cwidth cv; cheight := cheight cv; painted := painted cv ++ [c] |}.

(** The style assignments of [redrawLines], in source order. *)
Definition applyLineStyle (ls : LineSettings) (c : Context2D) : Context2D :=
  {| strokeStyle := color ls;
     lineWidth := width ls;
     lineCap := "round";
     shadowColor := if glow ls then color ls else shadowColor c;
     shadowBlur := if glow ls then 10 else 0;
     lineDash := dashPattern (style ls);
     path := path c |}.

Definition withPath (p : list PathCmd) (c : Context2D) : Context2D :=
  {| strokeStyle := strokeStyle c; lineWidth := lineWidth c; lineCap := lineCap c;
     shadowColor := shadowColor c; shadowBlur := shadowBlur c;
     lineDash := lineDash c; path := p |}.

Definition redrawLines (s : State) : State :=
  match ctx s, canvas s with
  | Some c, Some cv =>
      let cv := clearRect cv in
      if Nat.eqb (length (typedSequence s)) 0 then with_canvas (Some cv) s
      else
        let c := applyLineStyle (lines (settings s)) c in
        if Nat.leb 2 (length (typedSequence s)) then
          (* beginPath(); the loop; stroke() *)
          let c := withPath (polyline (typedSequence s) (keyPositions s)) c in
          with_canvas (Some (strokeOn c cv)) (with_ctx (Some c) s)
        else with_canvas (Some cv) (with_ctx (Some c) s)
  | _, _ => s
  end.

(** ** Auto-fade timer system *)

Definition startFadeTimer (s : State) : State :=
  let '(id, s) := setTimeout CbFade 2000 s in
  with_fadeTimeout (Some id) s.

(** Body of the 2000 ms callback. *)
Definition fadeFired (s : State) : State :=
  if isHovering s then s
  else
    let s := with_keyboardOpacity (3 # 10)%Q s in
    let '(id, s) := setTimeout CbReveal 1000 s in
    with_exportTimeout (Some id) s.

(** Body of the nested 1000 ms callback. *)
Definition revealFired (s : State) : State :=
  if (negb (isHovering s) && Qeq_bool (keyboardOpacity s) (3 # 10))%bool
  then with_showExportButtons true s
  else s.

Definition runCallback (f : Callback) (s : State) : State :=
  match f with
  | CbRedraw => redrawLines (calculateKeyPositions s)
  | CbFade => fadeFired s
  | CbReveal => revealFired s
  end.

(** ** Input handlers *)

(** The four statements that [addLetter], [addSpace] and [removeLetter]
    share: [clearTimeout(fadeTimeout); clearTimeout(exportTimeout);
    keyboardOpacity = 1; showExportButtons = false]. *)
Definition resetFade (s : State) : State :=
  with_showExportButtons false
    (with_keyboardOpacity 1%Q
       (clearTimeout (exportTimeout s) (clearTimeout (fadeTimeout s) s))).

Definition addLetter (letter : string) (s : State) : State :=
  let s := with_currentText (currentText s +:+ toLowerCase letter) s in
  let s := with_typedSequence (typedSequence s ++ [letter]) s in
  let s := resetFade s in
  let s := snd (setTimeout CbRedraw 10 s) in
  startFadeTimer s.

Definition addSpace (s : State) : State :=
  if (Nat.ltb 0 (String.length (currentText s)) && negb (endsWithSpace (currentText s)))%bool
  then
    let s := with_currentText (currentText s +:+ " ") s in
    startFadeTimer (resetFade s)
  else s.

Definition removeLetter (s : State) : State :=
  if Nat.ltb 0 (String.length (currentText s)) then
    let lastChar := lastCharOf (currentText s) in
    let s := with_currentText (slice_init (currentText s)) s in
    let s := if matchAnyLetter lastChar
             then with_typedSequence (removelast (typedSequence s)) s
             else s in
    let s := redrawLines s in
    let s := resetFade s in
    if Nat.ltb 0 (String.length (currentText s)) then startFadeTimer s else s
  else s.

Definition confirmTyping (s : State) : State :=
  with_showExportButtons true
    (with_keyboardOpacity (1 # 10)%Q
       (clearTimeout (exportTimeout s) (clearTimeout (fadeTimeout s) s))).

Definition handleKeyPress (eventKey : string) (s : State) : State :=
  let key := toUpperCase eventKey in
  if matchSingleUpper key then addLetter key s
  else if String.eqb key " " then addSpace s
  else if String.eqb key "BACKSPACE" then removeLetter s
  else if String.eqb key "ENTER" then confirmTyping s
  else s.

Definition handleMouseEnter (s : State) : State :=
  let s := with_isHovering true s in
  with_showExportButtons false
    (with_keyboardOpacity 1%Q
       (clearTimeout (exportTimeout s) (clearTimeout (fadeTimeout s) s))).

Definition handleMouseLeave (s : State) : State :=
  let s := with_isHovering false s in
  if Nat.ltb 0 (length (typedSequence s)) then startFadeTimer s else s.

(** ** Export functionality *)

Definition dasharrayOf (st : LineStyle) : string :=
  match st with
  | dashed => "10,5"
  | dotted => "2,8"
  | solid => "none"
  end.

(** The [forEach] that appends one circle per letter with a known position. *)
Definition markers (sq : list string) (pos : gmap string KeyPosition) (ls : LineSettings)
  : list SvgElem :=
  concat (map (λ letter,
             match pos !! letter with
             | Some p => [CircleElem {| cx := x p; cy := y p; r := dotSize ls;
                                        fill := color ls; circle_filter := glow ls |}]
             | None => []
             end) sq).

Definition svgDocument (s : State) : SvgDoc :=
  let ls := lines (settings s) in
  {| svg_width := cwidth <$> canvas s;
     svg_height := cheight <$> canvas s;
     elems :=
       (if glow ls then [GlowDefs] else [])
       ++ [PathElem {| d := polyline (typedSequence s) (keyPositions s);
                       stroke := color ls;
                       stroke_width := width ls;
                       stroke_dasharray := dasharrayOf (style ls);
                       path_filter := glow ls |}]
       ++ markers (typedSequence s) (keyPositions s) ls |}.

Definition downloadName (text ext : string) : string :=
  "typing-pattern-" +:+ replaceSpaces false text +:+ ext.

Definition exportAsSVG (s : State) : State :=
  if Nat.ltb (length (typedSequence s)) 2 then s
  else
    with_downloads
      (downloads s ++ [{| filename := downloadName (currentText s) ".svg";
                          body := SvgBody (svgDocument s) |}]) s.

Definition exportAsPNG (s : State) : State :=
  match canvas s with
  | None => s
  | Some cv =>
      with_downloads
        (downloads s ++ [{| filename := downloadName (currentText s) ".png";
                            body := PngBody cv |}]) s
  end.

(** ** Utility functions and settings management *)

Definition clearCanvas (s : State) : State :=
  let s := with_typedSequence [] s in
  let s := with_currentText "" s in
  let s := with_showExportButtons false s in
  let s := with_keyboardOpacity 1%Q s in
  let s := clearTimeout (fadeTimeout s) s in
  let s := clearTimeout (exportTimeout s) s in
  match ctx s, canvas s with
  | Some _, Some cv => with_canvas (Some (clearRect cv)) s
  | _, _ => s
  end.

Definition toggleSettings (s : State) : State :=
  with_showSettings (negb (showSettings s)) s.

Definition updateSettings (s : State) : State :=
  snd (setTimeout CbRedraw 10 s).

(** ** Initialisation and resize *)

(** A freshly obtained (or reset) 2D context. *)
Definition freshContext : Context2D :=
  {| strokeStyle := "#000000"; lineWidth := 1; lineCap := "butt";
     shadowColor := "rgba(0, 0, 0, 0)"; shadowBlur := 0; lineDash := []; path := [] |}.

(** Assigning [canvas.width] and [canvas.height] resizes the bitmap, which
    blanks it and resets the context. *)
Definition sizeCanvas (w h : Q) (s : State) : State :=
  with_ctx (Some freshContext)
    (with_canvas (Some {| cwidth := w; cheight := h; painted := [] |}) s).

(** [onMount]; [has2d] says whether [getContext('2d')] yields a context and
    [w], [h] are [window.innerWidth], [window.innerHeight]. *)
Definition onMount (has2d : bool) (w h : Q) (s : State) : State :=
  match canvas s with
  | Some _ =>
      if has2d then calculateKeyPositions (sizeCanvas w h s)
      else with_ctx None s
  | None => s
  end.

Definition handleResize (w h : Q) (s : State) : State :=
  match canvas s, ctx s with
  | Some _, Some _ => redrawLines (calculateKeyPositions (sizeCanvas w h s))
  | _, _ => s
  end.

(** ** The event loop *)

(** The pending timer that fires next: the one with the least due time, the
    oldest among equals; returned with the rest of the queue. *)
Fixpoint popEarliest (ts : list Timer) : option (Timer * list Timer) :=
  match ts with
  | [] => None
  | t :: rest =>
      match popEarliest rest with
      | Some (u, rest') =>
          if due u <? due t then Some (u, t :: rest') else Some (t, rest)
      | None => Some (t, [])
      end
  end.

Definition popDue (target : Z) (ts : list Timer) : option (Timer * list Timer) :=
  match popEarliest ts with
  | Some (t, rest) => if due t <=? target then Some (t, rest) else None
  | None => None
  end.

(** Run one due callback at its due time. *)
Definition fire (t : Timer) (rest : list Timer) (s : State) : State :=
  runCallback (cb t) (with_now (Z.max (now s) (due t)) (with_timers rest s)).

Fixpoint runTimers (fuel : nat) (target : Z) (s : State) : State :=
  match fuel with
  | O => with_now (Z.max (now s) target) s
  | S fuel =>
      match popDue target (timers s) with
      | Some (t, rest) => runTimers fuel target (fire t rest s)
      | None => with_now (Z.max (now s) target) s
      end
  end.

(** A fade callback may schedule one reveal callback; nothing else schedules
    from inside a callback. *)
Definition weight (f : Callback) : nat :=
  match f with CbFade => 2 | _ => 1 end.

Definition fuelFor (ts : list Timer) : nat :=
  list_sum (map (λ t, weight (cb t)) ts).

(** Let [dt] milliseconds pass: every callback that falls due runs, in order. *)
Definition elapse (dt : Z) (s : State) : State :=
  runTimers (fuelFor (timers s)) (now s + Z.max 0 dt) s.

Inductive Event :=
| KeyDown (key : string)
| ClickKey (letter : string)
| MouseEnter
| MouseLeave
| ClickExportSVG
| ClickExportPNG
| ClickSettings
| ChangeSettings (st : Settings)
| Mount (has2d : bool) (w h : Q)
| Resize (w h : Q)
| Relayout (layout : option (list (string * DOMRect)))
| Elapse (dt : Z)
| Clear.

Definition inLayout (letter : string) : bool :=
  existsb (String.eqb letter) (concat keyboardLayout).

(** What each event does to the page.  The on-screen keys exist only for the
    letters of [keyboardLayout], and the export buttons only while
    [showExportButtons] holds. *)
Definition handle (e : Event) (s : State) : State :=
  match e with
  | KeyDown key => handleKeyPress key s
  | ClickKey letter => if inLayout letter then addLetter letter s else s
  | MouseEnter => handleMouseEnter s
  | MouseLeave => handleMouseLeave s
  | ClickExportSVG => if showExportButtons s then exportAsSVG s else s
  | ClickExportPNG => if showExportButtons s then exportAsPNG s else s
  | ClickSettings => toggleSettings s
  | ChangeSettings st => updateSettings (with_settings st s)
  | Mount has2d w h => onMount has2d w h s
  | Resize w h => handleResize w h s
  | Relayout layout => with_dom layout s
  | Elapse dt => elapse dt s
  | Clear => clearCanvas s
  end.

Definition replay (evs : list Event) (s : State) : State :=
  foldl (λ s e, handle e s) s evs.

(** ** Vocabulary of the specification *)

(** A letter input: the key names one ASCII letter, in either case. *)
Definition isLetterKey (key : string) : bool :=
  match key with
  | String c EmptyString => is_letter c
  | _ => false
  end.

Definition joinStrings (l : list string) : string := foldr String.append "" l.

(** The non-space characters of a text, in order, each as an upper-case
    one-letter string. *)
Fixpoint lettersOf (text : string) : list string :=
  match text with
  | EmptyString => []
  | String c rest =>
      if Ascii.eqb c " " then lettersOf rest
      else String (upper_ascii c) EmptyString :: lettersOf rest
  end.

Fixpoint countNonSpace (text : string) : nat :=
  match text with
  | EmptyString => O
  | String c rest => if Ascii.eqb c " " then countNonSpace rest else S (countNonSpace rest)
  end.

Definition noLeadingSpace (text : string) : bool :=
  match text with
  | EmptyString => true
  | String c _ => negb (Ascii.eqb c " ")
  end.

Fixpoint noDoubleSpace (text : string) : bool :=
  match text with
  | EmptyString => true
  | String a rest =>
      match rest with
      | EmptyString => true
      | String b _ => (negb (Ascii.eqb a " " && Ascii.eqb b " ") && noDoubleSpace rest)%bool
      end
  end.

(** Every character is a lower-case letter or a space. *)
Fixpoint lowerOrSpace (text : string) : bool :=
  match text with
  | EmptyString => true
  | String c rest => ((is_lower c || Ascii.eqb c " ") && lowerOrSpace rest)%bool
  end.

(** The five ways an event can move the typed sequence and the display text. *)
Inductive typing_move (s s' : State) : Prop :=
| move_none :
    typedSequence s' = typedSequence s → currentText s' = currentText s →
    typing_move s s'
| move_letter c :
    is_upper c = true →
    typedSequence s' = (typedSequence s ++ [String c EmptyString])%list →
    currentText s' = currentText s +:+ String (lower_ascii c) EmptyString →
    typing_move s s'
| move_space :
    Nat.ltb 0 (String.length (currentText s)) = true →
    endsWithSpace (currentText s) = false →
    typedSequence s' = typedSequence s →
    currentText s' = currentText s +:+ " " →
    typing_move s s'
| move_backspace c :
    last_char (currentText s) = Some c →
    typedSequence s' =
      (if is_letter c then removelast (typedSequence s) else typedSequence s) →
    currentText s' = slice_init (currentText s) →
    typing_move s s'
| move_clear :
    typedSequence s' = [] → currentText s' = "" →
    typing_move s s'.

(** ** Vocabulary for paths and exported documents *)

Definition moveTo (p : KeyPosition) : PathCmd := MoveTo (x p) (y p).
Definition lineTo (p : KeyPosition) : PathCmd := LineTo (x p) (y p).

Definition isLineTo (c : PathCmd) : bool :=
  match c with LineTo _ _ => true | MoveTo _ _ => false end.

(** The end point of the pair [(a, b)] when both ends have a position. *)
Definition pairTarget (pos : gmap string KeyPosition) (a b : string) : option KeyPosition :=
  match pos !! a, pos !! b with
  | Some _, Some q => Some q
  | _, _ => None
  end.

(** The commands of a pair after the first. *)
Definition lineOnly (pos : gmap string KeyPosition) (a b : string) : list PathCmd :=
  match pairTarget pos a b with
  | Some q => [lineTo q]
  | None => []
  end.

(** End points of the consecutive pairs of [sq] with both ends resolved,
    in order. *)
Definition lineTargets (sq : list string) (pos : gmap string KeyPosition) : list KeyPosition :=
  omap (λ ab, pairTarget pos (fst ab) (snd ab)) (zip sq (tail sq)).

(** Start of the first pair, when the first pair has both ends resolved. *)
Definition firstPairStart (sq : list string) (pos : gmap string KeyPosition)
  : option KeyPosition :=
  match sq with
  | a :: b :: _ =>
      match pos !! a, pos !! b with
      | Some p, Some _ => Some p
      | _, _ => None
      end
  | _ => None
  end.

(** The path as the specification words it: a move to the first letter whose
    position is known, then a line to every later letter whose position is
    known. *)
Definition specPath (sq : list string) (pos : gmap string KeyPosition) : list PathCmd :=
  match omap (λ k, pos !! k) sq with
  | [] => []
  | p :: rest => moveTo p :: map lineTo rest
  end.

(** The path of the stroke painted last on the canvas. *)
Definition strokedPath (s : State) : option (list PathCmd) :=
  match canvas s with
  | Some cv => path <$> last (painted cv)
  | None => None
  end.

Definition docPaths (doc : SvgDoc) : list SvgPath :=
  omap (λ e, match e with PathElem p => Some p | _ => None end) (elems doc).

Definition docCircles (doc : SvgDoc) : list SvgCircle :=
  omap (λ e, match e with CircleElem c => Some c | _ => None end) (elems doc).

(** Number of line commands in the path data of a document. *)
Definition docLineCommands (doc : SvgDoc) : nat :=
  list_sum (map (λ p, length (List.filter isLineTo (d p))) (docPaths doc)).

(** The path data of the document exported last. *)
Definition exportedPath (s : State) : option (list PathCmd) :=
  match last (downloads s) with
  | Some {| body := SvgBody doc |} => d <$> head (docPaths doc)
  | _ => None
  end.

(** ** Sample pages *)

Definition blankCanvas : Canvas := {| cwidth := 300; cheight := 150; painted := [] |}.

Definition keyRect (col : Z) : DOMRect :=
  {| rleft := inject_Z (64 * col); rtop := 0; rwidth := 56; rheight := 40 |}.

(** A keyboard of which only the keys B, D and E are rendered. *)
Definition sparseLayout : list (string * DOMRect) :=
  [("B", keyRect 1); ("D", keyRect 3); ("E", keyRect 4)].

(** The letters a..e typed on a mounted page with that keyboard, after the
    deferred redraw has run. *)
Definition sparsePage : State :=
  replay [Mount true 800 600; KeyDown "a"; KeyDown "b"; KeyDown "c"; KeyDown "d";
          KeyDown "e"; Elapse 10]
    (initial (Some blankCanvas) (Some sparseLayout)).

(** Two letters typed and confirmed on a page without a canvas. *)
Definition canvaslessPage : State :=
  replay [KeyDown "a"; KeyDown "b"; KeyDown "Enter"] (initial None None).

(** A full first keyboard row, and "we" typed on it. *)
Definition topRowLayout : list (string * DOMRect) :=
  [("Q", keyRect 0); ("W", keyRect 1); ("E", keyRect 2); ("R", keyRect 3)].

Definition topRowPage : State :=
  replay [Mount true 800 600; KeyDown "w"; KeyDown "e"; Elapse 10]
    (initial (Some blankCanvas) (Some topRowLayout)).

(** ** Vocabulary of the fade machine *)

Inductive FadeState := Active | Fading | Revealed | Confirmed.

(** The state of the fade machine read off the two signals it drives. *)
Definition fadeState (s : State) : option FadeState :=
  if Qeq_bool (keyboardOpacity s) 1 then
    (if showExportButtons s then None else Some Active)
  else if Qeq_bool (keyboardOpacity s) (3 # 10) then
    Some (if showExportButtons s then Revealed else Fading)
  else if Qeq_bool (keyboardOpacity s) (1 # 10) then
    (if showExportButtons s then Some Confirmed else None)
  else None.

Definition isFadeKind (t : Timer) : bool :=
  match cb t with CbRedraw => false | _ => true end.

(** The pending fade and reveal callbacks with their due times, in queue
    order. *)
Definition fadeView (ts : list Timer) : list (Callback * Z) :=
  map (λ t, (cb t, due t)) (List.filter isFadeKind ts).

(** A pending timer is tracked when it is a redraw, or the fade callback
    held in [fadeTimeout], or the reveal callback held in [exportTimeout]. *)
Definition tracked (s : State) (t : Timer) : bool :=
  match cb t with
  | CbRedraw => true
  | CbFade => bool_decide (fadeTimeout s = Some (tid t))
  | CbReveal => bool_decide (exportTimeout s = Some (tid t))
  end.

Definition timersTracked (s : State) : bool := forallb (tracked s) (timers s).

(** Key presses after which the handlers call [startFadeTimer]: a letter, a
    space that is accepted, a backspace that leaves some text. *)
Definition restartsFade (key : string) (s : State) : bool :=
  (isLetterKey key
   || String.eqb key " " && Nat.ltb 0 (String.length (currentText s))
      && negb (endsWithSpace (currentText s))
   || String.eqb key "Backspace" && Nat.ltb 1 (String.length (currentText s)))%bool.

(** Where a fade sequence started at [t0] stands while the clock runs to
    [target]. *)
Inductive phase (t0 target : Z) (s : State) : Prop :=
| phase_active :
    fadeView (timers s) = [(CbFade, t0 + 2000)] →
    now s <= t0 + 2000 →
    keyboardOpacity s = 1%Q → showExportButtons s = false →
    phase t0 target s
| phase_fading :
    t0 + 2000 <= target →
    fadeView (timers s) = [(CbReveal, t0 + 3000)] →
    keyboardOpacity s = (3 # 10)%Q → showExportButtons s = false →
    phase t0 target s
| phase_revealed :
    t0 + 3000 <= target →
    fadeView (timers s) = [] →
    keyboardOpacity s = (3 # 10)%Q → showExportButtons s = true →
    phase t0 target s.

(** A page on which one letter has just been typed. *)
Definition oneLetterPage : State := handleKeyPress "a" (initial None None).

(** The state the specification gives for [d] milliseconds after the input. *)
Definition expectedFade (d : Z) : FadeState :=
  if d <? 2000 then Active else if d <? 3000 then Fading else Revealed.

Definition noHoverEvent (e : Event) : bool :=
  match e with
  | MouseEnter | MouseLeave => false
  | _ => true
  end.

(** The page is not hovered, its fade and reveal callbacks are tracked, and
    at most one of them is pending. *)
Definition fadeTidy (s : State) : Prop :=
  isHovering s = false ∧ timersTracked s = true ∧ (length (fadeView (timers s)) <= 1)%nat.

(** Typing while the pointer is over the keyboard, then moving the pointer
    away and typing again. *)
Definition hoverThenType : list Event :=
  [MouseEnter; KeyDown "a"; Elapse 1000; MouseLeave; Elapse 500; KeyDown "b"].

(** ** Dynamic styling *)

Definition getKeyClasses (s : State) : string :=
  let baseClasses := "key w-14 h-10 border font-mono transition-all duration-150 " in
  let baseClasses :=
    baseClasses +:+
    match theme (keyboard (settings s)) with
    | light => "bg-gray-200 hover:bg-gray-300 border-gray-400 text-black "
    | neon => "bg-purple-900 hover:bg-purple-800 border-cyan-400 text-cyan-300 shadow-lg shadow-cyan-500/20 "
    | dark => "border-gray-600 text-white "
    end in
  let baseClasses :=
    baseClasses +:+
    match keyShape (keyboard (settings s)) with
    | square => "rounded-none "
    | circular => "rounded-full "
    | rounded => "rounded "
    end in
  if is3D (keyboard (settings s))
  then baseClasses +:+ "shadow-lg transform hover:scale-105 "
  else baseClasses.

(** The class names of a [class] attribute: its maximal space-free runs.
    [cur] is the run being read. *)
Fixpoint classNames (cur : string) (attr : string) : list string :=
  match attr with
  | EmptyString => match cur with EmptyString => [] | _ => [cur] end
  | String c rest =>
      if Ascii.eqb c " "
      then match cur with
           | EmptyString => classNames EmptyString rest
           | _ => cur :: classNames EmptyString rest
           end
      else classNames (cur +:+ String c EmptyString) rest
  end.

Definition shapeClasses : list string := ["rounded"; "rounded-none"; "rounded-full"].

(** ** Further vocabulary *)

(** The rectangle of the last rendered key that carries [letter]. *)
Fixpoint lastRect (letter : string) (keys : list (string * DOMRect)) : option DOMRect :=
  match keys with
  | [] => None
  | k :: rest =>
      match lastRect letter rest with
      | Some r => Some r
      | None => if String.eqb (fst k) letter then Some (snd k) else None
      end
  end.

Definition isExportClick (e : Event) : bool :=
  match e with
  | ClickExportSVG | ClickExportPNG => true
  | _ => false
  end.

(** A mount that obtains a 2D context. *)
Definition isContextMount (e : Event) : bool :=
  match e with
  | Mount true _ _ => true
  | _ => false
  end.

(** What a redraw reads or writes besides the typed sequence and the line
    settings. *)
Definition drawing (s : State) : option Canvas * option Context2D * gmap string KeyPosition :=
  (canvas s, ctx s, keyPositions s).

(** The deferred callback of [addLetter] and [updateSettings]. *)
Definition refresh (s : State) : State := redrawLines (calculateKeyPositions s).

(** The four named states of the fade machine. *)
Definition fadeSignalsNamed (s : State) : bool :=
  match fadeState s with Some _ => true | None => false end.

Definition hasSpace (s : string) : bool :=
  existsb is_space (list_ascii_of_string s).

(** Every space of a text replaced by a hyphen. *)
Fixpoint hyphenate (text : string) : string :=
  match text with
  | EmptyString => EmptyString
  | String c rest => String (if Ascii.eqb c " " then "-"%char else c) (hyphenate rest)
  end.

(** The body of the [forEach] of [calculateKeyPositions]. *)
Definition registerKey (m : gmap string KeyPosition) (k : string * DOMRect)
  : gmap string KeyPosition :=
  match fst k with
  | EmptyString => m
  | letter => <[letter := centre (snd k)]> m
  end.

(** A keyboard that renders a key for every letter of the layout. *)
Definition rendersAllKeys (keys : list (string * DOMRect)) : bool :=
  forallb (λ l, existsb (String.eqb l) (map fst keys)) (concat keyboardLayout).

Definition fullLayout : list (string * DOMRect) :=
  imap (λ i l, (l, keyRect (Z.of_nat i))) (concat keyboardLayout).

(** What a redraw reads besides the drawing itself. *)
Definition drawInputs (s : State) : list string * Settings * option (list (string * DOMRect)) :=
  (typedSequence s, settings s, dom s).

Definition redrawTimers (ts : list Timer) : list Timer :=
  List.filter (λ t, negb (isFadeKind t)) ts.

(** Some pending redraw callback falls due by [target]. *)
Definition redrawDue (target : Z) (ts : list Timer) : bool :=
  existsb (λ t, negb (isFadeKind t) && (due t <=? target))%bool ts.

(** The opacity and the export flag form one of the four named states. *)
Definition namedSignals (s : State) : Prop :=
  (keyboardOpacity s = 1%Q ∧ showExportButtons s = false) ∨
  keyboardOpacity s = (3 # 10)%Q ∨
  (keyboardOpacity s = (1 # 10)%Q ∧ showExportButtons s = true).

(** * Properties *)

Local Open Scope list_scope.

(** ** Scenarios of the specification, run on the model *)

Example scenario_hello_enter :
  let s := replay (KeyDown <$> ["H"; "E"; "L"; "L"; "O"; "Enter"]) (initial None None) in
  typedSequence s = ["H"; "E"; "L"; "L"; "O"] ∧ currentText s = "hello" ∧
  keyboardOpacity s = (1 # 10)%Q ∧ showExportButtons s = true.
Proof. repeat split; reflexivity. Qed.

Example scenario_double_space :
  let s := replay (KeyDown <$> ["A"; "B"; " "; " "]) (initial None None) in
  typedSequence s = ["A"; "B"] ∧ currentText s = "ab ".
Proof. split; reflexivity. Qed.

Example scenario_filename :
  downloadName "ab cd" ".svg" = "typing-pattern-ab-cd.svg" ∧
  downloadName "ab cd" ".png" = "typing-pattern-ab-cd.png".
Proof. split; reflexivity. Qed.

Example scenario_other_key_ignored (s : State) :
  handleKeyPress "Shift" s = s ∧ handleKeyPress "7" s = s ∧ handleKeyPress "Tab" s = s.
Proof. repeat split; reflexivity. Qed.

(** ** Characters and strings *)

Ltac ascii_cases c := destruct c as [[] [] [] [] [] [] [] []]; vm_compute; try congruence; auto.

Lemma upper_of_lower_ascii c : is_upper c = true → upper_ascii (lower_ascii c) = c.
Proof. ascii_cases c. Qed.

Lemma lower_of_upper_ascii c : lower_ascii (upper_ascii c) = lower_ascii c.
Proof. ascii_cases c. Qed.

Lemma upper_ascii_is_upper c : is_letter c = true → is_upper (upper_ascii c) = true.
Proof. ascii_cases c. Qed.

Lemma lower_ascii_is_lower c : is_upper c = true → is_lower (lower_ascii c) = true.
Proof. ascii_cases c. Qed.

Lemma lower_is_letter c : is_lower c = true → is_letter c = true.
Proof. unfold is_letter. intros ->. apply orb_true_r. Qed.

Lemma lower_not_space c : is_lower c = true → Ascii.eqb c " " = false.
Proof. ascii_cases c. Qed.

Lemma matchSingleUpper_inv key :
  matchSingleUpper key = true → ∃ c, key = String c EmptyString ∧ is_upper c = true.
Proof.
  destruct key as [|c [|? ?]]; simpl; try discriminate.
  intros H. exists c. split; [reflexivity | exact H].
Qed.

Lemma append_cons c s t : String c s +:+ t = String c (s +:+ t).
Proof. reflexivity. Qed.

Lemma append_empty_r s : s +:+ "" = s.
Proof. induction s as [|c s IH]; [reflexivity | now rewrite append_cons, IH]. Qed.

Lemma append_assoc s t u : (s +:+ t) +:+ u = s +:+ (t +:+ u).
Proof. induction s as [|c s IH]; [reflexivity | now rewrite !append_cons, IH]. Qed.

Lemma last_char_snoc s c : last_char (s +:+ String c "") = Some c.
Proof.
  induction s as [|a s IH]; [reflexivity |].
  rewrite append_cons. cbn [last_char].
  destruct (s +:+ String c "") eqn:E; [| exact IH].
  destruct s; discriminate.
Qed.

Lemma slice_init_snoc s c : slice_init (s +:+ String c "") = s.
Proof.
  induction s as [|a s IH]; [reflexivity |].
  rewrite append_cons. cbn [slice_init].
  destruct (s +:+ String c "") eqn:E; [destruct s; discriminate |].
  now rewrite IH.
Qed.

Lemma length_snoc_pos s c : Nat.ltb 0 (String.length (s +:+ String c "")) = true.
Proof. destruct s; reflexivity. Qed.

(** A non-empty string is its [slice(0, -1)] followed by its last character. *)
Lemma snoc_decompose s :
  Nat.ltb 0 (String.length s) = true →
  ∃ c, last_char s = Some c ∧ s = slice_init s +:+ String c "".
Proof.
  induction s as [|a s IH]; [discriminate |].
  intros _. destruct s as [|b s].
  - exists a. split; reflexivity.
  - destruct IH as (c & Hl & Hs); [reflexivity |].
    exists c. split; [exact Hl |].
    change (slice_init (String a (String b s))) with (String a (slice_init (String b s))).
    change (String a (String b s) = String a (slice_init (String b s) +:+ String c "")).
    now rewrite <- Hs.
Qed.

Lemma length_zero_empty s : Nat.ltb 0 (String.length s) = false → s = "".
Proof. destruct s; [reflexivity | discriminate]. Qed.

(** ** What each handler does to the typed sequence and the display text *)

Lemma redrawLines_typed s :
  typedSequence (redrawLines s) = typedSequence s ∧
  currentText (redrawLines s) = currentText s.
Proof.
  unfold redrawLines.
  destruct (ctx s), (canvas s); try (split; reflexivity).
  destruct (Nat.eqb _ 0); [split; reflexivity |].
  destruct (Nat.leb 2 _); split; reflexivity.
Qed.

Lemma calculateKeyPositions_typed s :
  typedSequence (calculateKeyPositions s) = typedSequence s ∧
  currentText (calculateKeyPositions s) = currentText s.
Proof. unfold calculateKeyPositions. destruct (dom s); split; reflexivity. Qed.

Lemma runCallback_typed f s :
  typedSequence (runCallback f s) = typedSequence s ∧
  currentText (runCallback f s) = currentText s.
Proof.
  destruct f; simpl.
  - destruct (redrawLines_typed (calculateKeyPositions s)) as [-> ->].
    apply calculateKeyPositions_typed.
  - unfold fadeFired. destruct (isHovering s); split; reflexivity.
  - unfold revealFired. destruct (_ && _)%bool; split; reflexivity.
Qed.

Lemma runTimers_typed fuel target s :
  typedSequence (runTimers fuel target s) = typedSequence s ∧
  currentText (runTimers fuel target s) = currentText s.
Proof.
  revert s. induction fuel as [|fuel IH]; intros s; simpl; [split; reflexivity |].
  destruct (popDue target (timers s)) as [[t rest]|]; [| split; reflexivity].
  destruct (IH (fire t rest s)) as [-> ->]. unfold fire.
  destruct (runCallback_typed (cb t) (with_now (Z.max (now s) (due t)) (with_timers rest s)))
    as [-> ->].
  split; reflexivity.
Qed.

Lemma elapse_typed dt s :
  typedSequence (elapse dt s) = typedSequence s ∧
  currentText (elapse dt s) = currentText s.
Proof. apply runTimers_typed. Qed.

Lemma addLetter_typed letter s :
  typedSequence (addLetter letter s) = typedSequence s ++ [letter] ∧
  currentText (addLetter letter s) = currentText s +:+ toLowerCase letter.
Proof.
  unfold addLetter, resetFade, startFadeTimer, setTimeout. simpl.
  destruct (fadeTimeout s), (exportTimeout s); split; reflexivity.
Qed.

Lemma resetFade_typed s :
  typedSequence (resetFade s) = typedSequence s ∧
  currentText (resetFade s) = currentText s.
Proof.
  unfold resetFade. destruct (fadeTimeout s), (exportTimeout s); split; reflexivity.
Qed.

Lemma startFadeTimer_typed s :
  typedSequence (startFadeTimer s) = typedSequence s ∧
  currentText (startFadeTimer s) = currentText s.
Proof. split; reflexivity. Qed.

Lemma addSpace_typed s :
  typedSequence (addSpace s) = typedSequence s ∧
  currentText (addSpace s) =
    if (Nat.ltb 0 (String.length (currentText s)) && negb (endsWithSpace (currentText s)))%bool
    then currentText s +:+ " " else currentText s.
Proof.
  unfold addSpace. destruct (_ && _)%bool; [| split; reflexivity].
  unfold resetFade. simpl.
  destruct (fadeTimeout s), (exportTimeout s); split; reflexivity.
Qed.

Lemma removeLetter_typed s :
  typedSequence (removeLetter s) =
    (if (Nat.ltb 0 (String.length (currentText s)) && matchAnyLetter (lastCharOf (currentText s)))%bool
     then removelast (typedSequence s) else typedSequence s) ∧
  currentText (removeLetter s) = slice_init (currentText s).
Proof.
  unfold removeLetter.
  destruct (Nat.ltb 0 (String.length (currentText s))) eqn:Hlen; simpl.
  2:{ split; [reflexivity |]. apply length_zero_empty in Hlen. now rewrite Hlen. }
  set (s1 := with_currentText _ s).
  set (s2 := if matchAnyLetter _ then _ else s1).
  assert (H2 : typedSequence s2 =
               (if matchAnyLetter (lastCharOf (currentText s))
                then removelast (typedSequence s) else typedSequence s)
               ∧ currentText s2 = slice_init (currentText s)).
  { subst s2 s1. destruct (matchAnyLetter _); split; reflexivity. }
  destruct H2 as [Hs Ht].
  destruct (redrawLines_typed s2) as [Rs Rt].
  destruct (resetFade_typed (redrawLines s2)) as [Fs Ft].
  match goal with |- context [if ?b then startFadeTimer _ else _] => destruct b end.
  - destruct (startFadeTimer_typed (resetFade (redrawLines s2))) as [-> ->].
    rewrite Fs, Ft, Rs, Rt. split; assumption.
  - rewrite Fs, Ft, Rs, Rt. split; assumption.
Qed.

Lemma confirmTyping_typed s :
  typedSequence (confirmTyping s) = typedSequence s ∧
  currentText (confirmTyping s) = currentText s.
Proof.
  unfold confirmTyping. destruct (fadeTimeout s), (exportTimeout s); split; reflexivity.
Qed.

(** ** Key classification *)

Lemma handleKeyPress_space s : handleKeyPress " " s = addSpace s.
Proof. reflexivity. Qed.

Lemma handleKeyPress_backspace s : handleKeyPress "Backspace" s = removeLetter s.
Proof. reflexivity. Qed.

Lemma handleKeyPress_enter s : handleKeyPress "Enter" s = confirmTyping s.
Proof. reflexivity. Qed.

Lemma isLetterKey_inv key :
  isLetterKey key = true → ∃ c, key = String c EmptyString ∧ is_letter c = true.
Proof.
  destruct key as [|c [|? ?]]; simpl; try discriminate.
  intros H. exists c. split; [reflexivity | exact H].
Qed.

Lemma handleKeyPress_letter key s :
  isLetterKey key = true → handleKeyPress key s = addLetter (toUpperCase key) s.
Proof.
  intros H. destruct (isLetterKey_inv key H) as (c & -> & Hc).
  unfold handleKeyPress. cbn [toUpperCase matchSingleUpper].
  now rewrite (upper_ascii_is_upper c Hc).
Qed.

Lemma lower_of_upper key : toLowerCase (toUpperCase key) = toLowerCase key.
Proof.
  induction key as [|c key IH]; [reflexivity |].
  cbn [toUpperCase toLowerCase]. now rewrite lower_of_upper_ascii, IH.
Qed.

Lemma letter_key_typed key s :
  isLetterKey key = true →
  typedSequence (handleKeyPress key s) = typedSequence s ++ [toUpperCase key] ∧
  currentText (handleKeyPress key s) = currentText s +:+ toLowerCase key.
Proof.
  intros H. rewrite (handleKeyPress_letter key s H).
  destruct (addLetter_typed (toUpperCase key) s) as [-> ->].
  now rewrite lower_of_upper.
Qed.

Lemma inLayout_inv letter :
  inLayout letter = true → ∃ c, letter = String c EmptyString ∧ is_upper c = true.
Proof.
  unfold inLayout. rewrite existsb_exists. intros (k & Hin & Heq).
  apply String.eqb_eq in Heq. subst k.
  cbn in Hin.
  repeat (destruct Hin as [<- | Hin]; [eexists; split; [reflexivity | reflexivity] |]).
  destruct Hin.
Qed.

(** ** Replaying letter inputs *)

Lemma letters_replay_from keys : ∀ s,
  forallb isLetterKey keys = true →
  typedSequence (replay (KeyDown <$> keys) s) = typedSequence s ++ (toUpperCase <$> keys) ∧
  currentText (replay (KeyDown <$> keys) s) = currentText s +:+ joinStrings (toLowerCase <$> keys).
Proof.
  induction keys as [|k keys IH]; intros s Hk.
  - cbn. now rewrite app_nil_r, append_empty_r.
  - cbn [forallb] in Hk. apply andb_prop in Hk as [Hk Hks].
    change (replay (KeyDown <$> k :: keys) s)
      with (replay (KeyDown <$> keys) (handleKeyPress k s)).
    destruct (IH (handleKeyPress k s) Hks) as [-> ->].
    destruct (letter_key_typed k s Hk) as [-> ->].
    rewrite <- app_assoc, append_assoc. split; reflexivity.
Qed.

(** C1. Typing the letters L1..Ln (n >= 2) into a page with nothing typed
    yet leaves [typedSequence] equal to the upper-cased letters, in order, and
    [currentText] equal to the concatenation of the lower-cased letters, with
    nothing in between. *)
Theorem letters_replay (s : State) (keys : list string) :
  typedSequence s = [] →
  currentText s = "" →
  forallb isLetterKey keys = true →
  (2 <= length keys)%nat →
  typedSequence (replay (KeyDown <$> keys) s) = toUpperCase <$> keys ∧
  currentText (replay (KeyDown <$> keys) s) = joinStrings (toLowerCase <$> keys).
Proof.
  intros Hs Ht Hk _.
  destruct (letters_replay_from keys s Hk) as [-> ->].
  now rewrite Hs, Ht.
Qed.

Lemma letters_replay_witness :
  typedSequence (replay (KeyDown <$> ["h"; "E"; "l"; "L"; "o"]) (initial None None))
    = ["H"; "E"; "L"; "L"; "O"] ∧
  currentText (replay (KeyDown <$> ["h"; "E"; "l"; "L"; "o"]) (initial None None)) = "hello".
Proof.
  apply (letters_replay (initial None None) ["h"; "E"; "l"; "L"; "o"]);
    [reflexivity | reflexivity | reflexivity | simpl; lia].
Defined.

(** ** Backspace after a letter *)

(** C6. From every state, typing a letter and then pressing Backspace (however
    long after) restores [typedSequence] and [currentText]. *)
Theorem backspace_undoes_letter (s : State) (key : string) (dt : Z) :
  isLetterKey key = true →
  typedSequence (handleKeyPress "Backspace" (elapse dt (handleKeyPress key s)))
    = typedSequence s ∧
  currentText (handleKeyPress "Backspace" (elapse dt (handleKeyPress key s)))
    = currentText s.
Proof.
  intros Hk. rewrite handleKeyPress_backspace.
  destruct (isLetterKey_inv key Hk) as (c & -> & Hc).
  set (s1 := elapse dt (handleKeyPress (String c "") s)).
  assert (H1 : typedSequence s1 = typedSequence s ++ [String (upper_ascii c) ""]
               ∧ currentText s1 = currentText s +:+ String (lower_ascii c) "").
  { subst s1. destruct (elapse_typed dt (handleKeyPress (String c "") s)) as [-> ->].
    apply (letter_key_typed (String c "") s Hk). }
  destruct H1 as [Hs Ht].
  destruct (removeLetter_typed s1) as [-> ->].
  rewrite Hs, Ht, length_snoc_pos, slice_init_snoc.
  unfold lastCharOf. rewrite last_char_snoc. cbn [matchAnyLetter andb].
  replace (is_letter (lower_ascii c)) with true by (clear - Hc; revert Hc; ascii_cases c).
  cbn [orb]. now rewrite removelast_last.
Qed.

Lemma backspace_undoes_letter_witness :
  typedSequence (handleKeyPress "Backspace"
                   (elapse 2500 (handleKeyPress "q" (initial None None)))) = [] ∧
  currentText (handleKeyPress "Backspace"
                 (elapse 2500 (handleKeyPress "q" (initial None None)))) = "".
Proof. apply (backspace_undoes_letter (initial None None) "q" 2500). reflexivity. Defined.

(** ** Every event is one of the five typing moves *)

Lemma handleKeyPress_move key s : typing_move s (handleKeyPress key s).
Proof.
  unfold handleKeyPress.
  destruct (matchSingleUpper (toUpperCase key)) eqn:Hm.
  { destruct (matchSingleUpper_inv _ Hm) as (c & -> & Hc).
    destruct (addLetter_typed (String c "") s) as [Hs Ht].
    apply (move_letter s _ c); assumption. }
  destruct (String.eqb (toUpperCase key) " ").
  { destruct (addSpace_typed s) as [Hs Ht].
    destruct (Nat.ltb 0 _ && _)%bool eqn:Hc.
    - apply andb_prop in Hc as [Hl He]. apply negb_true_iff in He.
      apply move_space; assumption.
    - apply move_none; assumption. }
  destruct (String.eqb (toUpperCase key) "BACKSPACE").
  { destruct (removeLetter_typed s) as [Hs Ht].
    destruct (Nat.ltb 0 (String.length (currentText s))) eqn:Hl.
    - destruct (snoc_decompose _ Hl) as (c & Hc & _).
      apply (move_backspace s _ c); [exact Hc | | exact Ht].
      rewrite Hs. unfold lastCharOf. rewrite Hc. cbn [matchAnyLetter andb].
      now rewrite orb_false_r.
    - apply move_none; [exact Hs |].
      rewrite Ht. apply length_zero_empty in Hl. now rewrite Hl. }
  destruct (String.eqb (toUpperCase key) "ENTER").
  { destruct (confirmTyping_typed s). apply move_none; assumption. }
  apply move_none; reflexivity.
Qed.

Lemma clearCanvas_typed s :
  typedSequence (clearCanvas s) = [] ∧ currentText (clearCanvas s) = "".
Proof.
  unfold clearCanvas. cbn zeta.
  destruct s as [cv c sq tx kv op sh st ft et ho se kp nw ts nx dm dl].
  destruct ft, et, c, cv; split; reflexivity.
Qed.

Lemma hover_typed s :
  (typedSequence (handleMouseEnter s) = typedSequence s ∧
   currentText (handleMouseEnter s) = currentText s) ∧
  (typedSequence (handleMouseLeave s) = typedSequence s ∧
   currentText (handleMouseLeave s) = currentText s).
Proof.
  destruct s as [cv c sq tx kv op sh st ft et ho se kp nw ts nx dm dl].
  unfold handleMouseEnter, handleMouseLeave. cbn.
  destruct ft, et, sq; repeat split; reflexivity.
Qed.

Lemma export_typed s :
  (typedSequence (exportAsSVG s) = typedSequence s ∧
   currentText (exportAsSVG s) = currentText s) ∧
  (typedSequence (exportAsPNG s) = typedSequence s ∧
   currentText (exportAsPNG s) = currentText s).
Proof.
  unfold exportAsSVG, exportAsPNG.
  destruct (Nat.ltb _ 2), (canvas s); repeat split; reflexivity.
Qed.

Lemma handle_move e s : typing_move s (handle e s).
Proof.
  destruct e; cbn [handle].
  - apply handleKeyPress_move.
  - destruct (inLayout letter) eqn:Hl; [| apply move_none; reflexivity].
    destruct (inLayout_inv _ Hl) as (c & -> & Hc).
    destruct (addLetter_typed (String c "") s) as [Hs Ht].
    apply (move_letter s _ c); assumption.
  - apply move_none; apply hover_typed.
  - apply move_none; apply hover_typed.
  - destruct (showExportButtons s); apply move_none; try reflexivity; apply export_typed.
  - destruct (showExportButtons s); apply move_none; try reflexivity; apply export_typed.
  - apply move_none; reflexivity.
  - apply move_none; reflexivity.
  - unfold onMount. destruct (canvas s); [| apply move_none; reflexivity].
    destruct has2d; [| apply move_none; reflexivity].
    apply move_none; [apply (calculateKeyPositions_typed (sizeCanvas w h s))
                     | apply (calculateKeyPositions_typed (sizeCanvas w h s))].
  - unfold handleResize. destruct (canvas s), (ctx s); try (apply move_none; reflexivity).
    destruct (redrawLines_typed (calculateKeyPositions (sizeCanvas w h s))) as [Hs Ht].
    destruct (calculateKeyPositions_typed (sizeCanvas w h s)) as [Hs' Ht'].
    apply move_none; [rewrite Hs, Hs' | rewrite Ht, Ht']; reflexivity.
  - apply move_none; reflexivity.
  - apply move_none; apply elapse_typed.
  - apply move_clear; apply clearCanvas_typed.
Qed.

(** An invariant of the typing moves holds after every replay. *)
Lemma replay_invariant (P : State → Prop) :
  (∀ s s', typing_move s s' → P s → P s') →
  ∀ evs s, P s → P (replay evs s).
Proof.
  intros Hstep evs. induction evs as [|e evs IH]; intros s Hs; [exact Hs |].
  apply (IH (handle e s)). apply (Hstep s); [apply handle_move | exact Hs].
Qed.

(** ** Spacing of the display text *)

Lemma last_char_decompose s c :
  last_char s = Some c → s = slice_init s +:+ String c "".
Proof.
  intros H. destruct (snoc_decompose s) as (c' & Hc & Hs).
  - destruct s; [discriminate | reflexivity].
  - rewrite H in Hc. injection Hc as <-. exact Hs.
Qed.

Lemma endsWithSpace_cons a b s :
  endsWithSpace (String a (String b s)) = endsWithSpace (String b s).
Proof. reflexivity. Qed.

Lemma noDoubleSpace_snoc s c :
  noDoubleSpace (s +:+ String c "") =
    (noDoubleSpace s && negb (endsWithSpace s && Ascii.eqb c " "))%bool.
Proof.
  induction s as [|a s IH]; [reflexivity |].
  rewrite append_cons. destruct s as [|b s].
  - change ("" +:+ String c "") with (String c ""). cbn.
    destruct (Ascii.eqb a " "), (Ascii.eqb c " "); reflexivity.
  - rewrite append_cons in *. rewrite endsWithSpace_cons.
    change (noDoubleSpace (String a (String b (s +:+ String c ""))))
      with (negb (Ascii.eqb a " " && Ascii.eqb b " ")
            && noDoubleSpace (String b (s +:+ String c "")))%bool.
    rewrite IH.
    change (noDoubleSpace (String a (String b s)))
      with (negb (Ascii.eqb a " " && Ascii.eqb b " ") && noDoubleSpace (String b s))%bool.
    now rewrite andb_assoc.
Qed.

Lemma noLeadingSpace_snoc s c :
  noLeadingSpace (s +:+ String c "") =
    match s with EmptyString => negb (Ascii.eqb c " ") | String _ _ => noLeadingSpace s end.
Proof. destruct s; reflexivity. Qed.

Lemma spacing_step s s' :
  typing_move s s' →
  noLeadingSpace (currentText s) = true ∧ noDoubleSpace (currentText s) = true →
  noLeadingSpace (currentText s') = true ∧ noDoubleSpace (currentText s') = true.
Proof.
  intros [Hs Ht | c Hc Hs Ht | Hl He Hs Ht | c Hc Hs Ht | Hs Ht] [Hlead Hdbl];
    rewrite Ht; clear Ht Hs.
  - split; assumption.
  - rewrite noLeadingSpace_snoc, noDoubleSpace_snoc, Hdbl.
    rewrite (lower_not_space _ (lower_ascii_is_lower c Hc)), andb_false_r.
    split; [destruct (currentText s); [reflexivity | exact Hlead] | reflexivity].
  - rewrite noLeadingSpace_snoc, noDoubleSpace_snoc, Hdbl, He.
    split; [destruct (currentText s); [discriminate | exact Hlead] | reflexivity].
  - rewrite (last_char_decompose _ _ Hc) in Hlead, Hdbl.
    rewrite noDoubleSpace_snoc in Hdbl. apply andb_prop in Hdbl as [Hdbl _].
    rewrite noLeadingSpace_snoc in Hlead.
    split; [destruct (slice_init (currentText s)); [reflexivity | exact Hlead] | exact Hdbl].
  - split; reflexivity.
Qed.

(** C9. Space appends one space to [currentText] exactly when the text is
    non-empty and does not end with a space, and otherwise changes nothing at
    all; a second space in a row leaves the text as the first left it; and
    after any replay of events the text has no leading space and no two
    spaces in a row. *)
Theorem space_rule (s : State) (evs : list Event) (cv : option Canvas)
    (layout : option (list (string * DOMRect))) :
  (if (Nat.ltb 0 (String.length (currentText s)) && negb (endsWithSpace (currentText s)))%bool
   then currentText (handleKeyPress " " s) = currentText s +:+ " "
        ∧ typedSequence (handleKeyPress " " s) = typedSequence s
   else handleKeyPress " " s = s) ∧
  currentText (handleKeyPress " " (handleKeyPress " " s)) = currentText (handleKeyPress " " s) ∧
  noLeadingSpace (currentText (replay evs (initial cv layout))) = true ∧
  noDoubleSpace (currentText (replay evs (initial cv layout))) = true.
Proof.
  rewrite !handleKeyPress_space. split; [| split].
  - destruct (Nat.ltb 0 _ && _)%bool eqn:Hc.
    + destruct (addSpace_typed s) as [Hs Ht]. rewrite Hc in Ht. split; assumption.
    + unfold addSpace. now rewrite Hc.
  - rewrite ?(handleKeyPress_space (addSpace s)).
    destruct (addSpace_typed (addSpace s)) as [_ ->].
    destruct (addSpace_typed s) as [_ ->].
    destruct (Nat.ltb 0 (String.length (currentText s)) && _)%bool eqn:Hc.
    + unfold endsWithSpace at 1. rewrite last_char_snoc. cbn. now rewrite andb_false_r.
    + now rewrite Hc.
  - apply (replay_invariant
             (λ s, noLeadingSpace (currentText s) = true ∧ noDoubleSpace (currentText s) = true)
             spacing_step evs (initial cv layout)).
    split; reflexivity.
Qed.

(** ** The typed sequence mirrors the display text *)

Lemma lettersOf_app s t : lettersOf (s +:+ t) = lettersOf s ++ lettersOf t.
Proof.
  induction s as [|c s IH]; [reflexivity |].
  rewrite append_cons. cbn [lettersOf]. rewrite IH. now destruct (Ascii.eqb c " ").
Qed.

Lemma lowerOrSpace_app s t :
  lowerOrSpace (s +:+ t) = (lowerOrSpace s && lowerOrSpace t)%bool.
Proof.
  induction s as [|c s IH]; [reflexivity |].
  rewrite append_cons. cbn [lowerOrSpace]. now rewrite IH, andb_assoc.
Qed.

Lemma countNonSpace_letters s : length (lettersOf s) = countNonSpace s.
Proof.
  induction s as [|c s IH]; [reflexivity |].
  cbn [lettersOf countNonSpace]. destruct (Ascii.eqb c " "); cbn [length]; now rewrite IH.
Qed.

Lemma mirror_step s s' :
  typing_move s s' →
  lowerOrSpace (currentText s) = true ∧ typedSequence s = lettersOf (currentText s) →
  lowerOrSpace (currentText s') = true ∧ typedSequence s' = lettersOf (currentText s').
Proof.
  intros [Hs Ht | c Hc Hs Ht | Hl He Hs Ht | c Hc Hs Ht | Hs Ht] [Hlow Hseq];
    rewrite Hs, Ht; clear Ht Hs.
  - split; assumption.
  - rewrite lowerOrSpace_app, lettersOf_app, Hlow, Hseq. cbn [lowerOrSpace lettersOf].
    rewrite (lower_ascii_is_lower c Hc), (lower_not_space _ (lower_ascii_is_lower c Hc)).
    rewrite (upper_of_lower_ascii c Hc). split; reflexivity.
  - rewrite lowerOrSpace_app, lettersOf_app, Hlow, Hseq. cbn. now rewrite app_nil_r.
  - rewrite (last_char_decompose _ _ Hc) in Hlow, Hseq.
    rewrite lowerOrSpace_app in Hlow. apply andb_prop in Hlow as [Hlow Hlast].
    rewrite lettersOf_app in Hseq. cbn [lowerOrSpace lettersOf] in Hlast, Hseq.
    rewrite andb_true_r in Hlast. split; [exact Hlow |].
    rewrite Hseq. destruct (is_lower c) eqn:Hlc.
    + rewrite (lower_is_letter c Hlc), (lower_not_space c Hlc). apply removelast_last.
    + cbn [orb] in Hlast. rewrite Hlast.
      apply Ascii.eqb_eq in Hlast. subst c. cbn. apply app_nil_r.
  - split; reflexivity.
Qed.

(** C10. After any replay of events from the initial state (letters, spaces,
    backspaces and clears among them), [typedSequence] is the list of the
    non-space characters of [currentText], upper-cased, in order; so its
    length is the number of non-space characters of [currentText]. *)
Theorem sequence_mirrors_text (evs : list Event) (cv : option Canvas)
    (layout : option (list (string * DOMRect))) :
  typedSequence (replay evs (initial cv layout))
    = lettersOf (currentText (replay evs (initial cv layout))) ∧
  length (typedSequence (replay evs (initial cv layout)))
    = countNonSpace (currentText (replay evs (initial cv layout))).
Proof.
  assert (H : lowerOrSpace (currentText (replay evs (initial cv layout))) = true ∧
              typedSequence (replay evs (initial cv layout))
                = lettersOf (currentText (replay evs (initial cv layout)))).
  { apply (replay_invariant
             (λ s, lowerOrSpace (currentText s) = true ∧
                   typedSequence s = lettersOf (currentText s))
             mirror_step evs (initial cv layout)).
    split; reflexivity. }
  destruct H as [_ H]. split; [exact H |].
  rewrite H at 1. apply countNonSpace_letters.
Qed.

(** ** The polyline loop *)

(** A loop over the indices of the consecutive pairs visits the pairs of
    [zip sq (tail sq)] in order. *)
Lemma pairs_by_index {B} (g : string → string → list B) (sq : list string) :
  concat (map (λ i, match sq !! i, sq !! (i + 1)%nat with
                    | Some a, Some b => g a b
                    | _, _ => []
                    end) (seq 0 (length sq - 1)))
  = concat (map (λ ab, g (fst ab) (snd ab)) (zip sq (tail sq))).
Proof.
  induction sq as [|a sq IH]; [reflexivity |].
  destruct sq as [|b sq]; [reflexivity |].
  replace (length (a :: b :: sq) - 1)%nat with (S (length (b :: sq) - 1))
    by (cbn [length]; lia).
  cbn [seq map concat]. rewrite <- seq_shift, map_map.
  change (zip (a :: b :: sq) (tail (a :: b :: sq)))
    with ((a, b) :: zip (b :: sq) (tail (b :: sq))).
  cbn [map concat fst snd lookup list_lookup Nat.add].
  f_equal. rewrite <- IH. reflexivity.
Qed.

Lemma segment_later sq pos i :
  segment sq pos (S i) =
    match sq !! S i, sq !! (S i + 1)%nat with
    | Some a, Some b => lineOnly pos a b
    | _, _ => []
    end.
Proof.
  unfold segment, lineOnly, pairTarget.
  destruct (sq !! S i) as [a|]; [| reflexivity].
  destruct (sq !! (S i + 1)%nat) as [b|]; [| reflexivity].
  destruct (pos !! a), (pos !! b); reflexivity.
Qed.

Lemma lineOnly_targets pos (l : list (string * string)) :
  concat (map (λ ab, lineOnly pos (fst ab) (snd ab)) l)
  = map lineTo (omap (λ ab, pairTarget pos (fst ab) (snd ab)) l).
Proof.
  induction l as [|[a b] l IH]; [reflexivity |].
  cbn [map concat omap list_omap fst snd]. unfold lineOnly at 1.
  destruct (pairTarget pos a b); cbn; now rewrite IH.
Qed.

(** The path of the loop: a move to the first letter when the first pair is
    resolved, then one line per resolved pair. *)
Lemma polyline_shape sq pos :
  polyline sq pos =
    match firstPairStart sq pos with Some p => [moveTo p] | None => [] end
    ++ map lineTo (lineTargets sq pos).
Proof.
  unfold polyline, lineTargets.
  destruct sq as [|a [|b sq]]; [reflexivity | reflexivity |].
  replace (length (a :: b :: sq) - 1)%nat with (S (length (b :: sq) - 1))
    by (cbn [length]; lia).
  cbn [seq map concat].
  match goal with |- _ ++ ?T = _ =>
    assert (Htail : T = map lineTo (lineTargets (b :: sq) pos)) end.
  { rewrite <- seq_shift, map_map.
    rewrite (map_ext _ _ (segment_later (a :: b :: sq) pos)).
    exact (eq_trans (pairs_by_index (lineOnly pos) (b :: sq))
                    (lineOnly_targets pos (zip (b :: sq) (tail (b :: sq))))). }
  rewrite Htail. unfold lineTargets.
  change (zip (a :: b :: sq) (tail (a :: b :: sq)))
    with ((a, b) :: zip (b :: sq) (tail (b :: sq))).
  cbn [omap list_omap fst snd firstPairStart].
  unfold segment, pairTarget. cbn [lookup list_lookup Nat.add Nat.eqb].
  destruct (pos !! a), (pos !! b); reflexivity.
Qed.

Lemma filter_lineTo_targets l : List.filter isLineTo (map lineTo l) = map lineTo l.
Proof. induction l as [|p l IH]; [reflexivity |]. cbn. now rewrite IH. Qed.

Lemma polyline_lineTos sq pos :
  List.filter isLineTo (polyline sq pos) = map lineTo (lineTargets sq pos).
Proof.
  rewrite polyline_shape, List.filter_app, filter_lineTo_targets.
  destruct (firstPairStart sq pos); reflexivity.
Qed.

(** With every letter resolved, the loop agrees with the wording of the
    specification. *)
Lemma lineTargets_all_resolved pos (sq : list string) :
  Forall (λ k, is_Some (pos !! k)) sq →
  lineTargets sq pos = omap (λ k, pos !! k) (tail sq).
Proof.
  unfold lineTargets. induction sq as [|a sq IH]; [reflexivity |].
  intros Hall. inversion Hall as [|? ? [p Ha] Hsq]; subst.
  destruct sq as [|b sq]; [reflexivity |].
  inversion Hsq as [|? ? [q Hb] _]; subst.
  change (zip (a :: b :: sq) (tail (a :: b :: sq)))
    with ((a, b) :: zip (b :: sq) (tail (b :: sq))).
  change (tail (a :: b :: sq)) with (b :: sq).
  cbn [omap list_omap fst snd]. unfold pairTarget at 1. rewrite Ha, Hb.
  f_equal. apply (IH Hsq).
Qed.

Lemma polyline_all_resolved pos (sq : list string) :
  Forall (λ k, is_Some (pos !! k)) sq →
  (2 <= length sq)%nat →
  polyline sq pos = specPath sq pos.
Proof.
  intros Hall Hlen. rewrite polyline_shape, (lineTargets_all_resolved pos sq Hall).
  destruct sq as [|a [|b sq]]; cbn [length] in Hlen; try lia.
  inversion Hall as [|? ? [p Ha] Hsq]; subst.
  inversion Hsq as [|? ? [q Hb] _]; subst.
  unfold specPath, firstPairStart. cbn [tail omap list_omap].
  rewrite Ha, Hb. reflexivity.
Qed.

Lemma omap_all_resolved (pos : gmap string KeyPosition) (sq : list string) :
  Forall (λ k, is_Some (pos !! k)) sq →
  length (omap (λ k, pos !! k) sq) = length sq.
Proof.
  induction 1 as [|k sq [p Hk] _ IH]; [reflexivity |].
  cbn [omap list_omap]. rewrite Hk. cbn. now rewrite IH.
Qed.

(** ** Redraw and vector export draw the same path *)

Lemma redrawLines_stroke s c cv :
  ctx s = Some c → canvas s = Some cv → (2 <= length (typedSequence s))%nat →
  canvas (redrawLines s) =
    Some {| cwidth := cwidth cv; cheight := cheight cv;
            painted := [withPath (polyline (typedSequence s) (keyPositions s))
                          (applyLineStyle (lines (settings s)) c)] |}.
Proof.
  intros Hc Hcv Hlen. unfold redrawLines. rewrite Hc, Hcv.
  destruct (typedSequence s) as [|a [|b sq]] eqn:E; cbn [length] in Hlen; try lia.
  reflexivity.
Qed.

Lemma exportAsSVG_file s :
  (2 <= length (typedSequence s))%nat →
  downloads (exportAsSVG s) =
    downloads s ++ [{| filename := downloadName (currentText s) ".svg";
                       body := SvgBody (svgDocument s) |}].
Proof.
  intros Hlen. unfold exportAsSVG.
  destruct (Nat.ltb_spec (length (typedSequence s)) 2); [lia | reflexivity].
Qed.

Lemma exportAsSVG_noop s :
  (length (typedSequence s) < 2)%nat → exportAsSVG s = s.
Proof.
  intros Hlen. unfold exportAsSVG.
  destruct (Nat.ltb_spec (length (typedSequence s)) 2); [reflexivity | lia].
Qed.

Lemma docPaths_markers sq pos ls : docPaths {| svg_width := None; svg_height := None;
                                               elems := markers sq pos ls |} = [].
Proof.
  unfold docPaths, markers. cbn [elems].
  induction sq as [|k sq IH]; [reflexivity |].
  cbn [map concat]. rewrite omap_app, IH. destruct (pos !! k); reflexivity.
Qed.

Lemma svgDocument_paths s :
  docPaths (svgDocument s) =
    [{| d := polyline (typedSequence s) (keyPositions s);
        stroke := color (lines (settings s));
        stroke_width := width (lines (settings s));
        stroke_dasharray := dasharrayOf (style (lines (settings s)));
        path_filter := glow (lines (settings s)) |}].
Proof.
  pose proof (docPaths_markers (typedSequence s) (keyPositions s) (lines (settings s))) as Hm.
  unfold docPaths, svgDocument in *. cbn [elems] in *.
  rewrite !omap_app, Hm. destruct (glow (lines (settings s))); reflexivity.
Qed.

Lemma svgDocument_circles s :
  docCircles (svgDocument s) =
    map (λ p, {| cx := x p; cy := y p; r := dotSize (lines (settings s));
                 fill := color (lines (settings s));
                 circle_filter := glow (lines (settings s)) |})
        (omap (λ k, keyPositions s !! k) (typedSequence s)).
Proof.
  unfold docCircles, svgDocument. cbn [elems]. rewrite !omap_app.
  replace (omap _ (if glow (lines (settings s)) then [GlowDefs] else [])) with (@nil SvgCircle)
    by (destruct (glow (lines (settings s))); reflexivity).
  cbn [omap list_omap app]. unfold markers.
  induction (typedSequence s) as [|k sq IH]; [reflexivity |].
  cbn [map concat omap list_omap]. rewrite omap_app, IH.
  destruct (keyPositions s !! k); reflexivity.
Qed.

(** C2, as the code has it. For a page with a canvas, a context and at least
    two typed letters, redraw paints exactly one stroke, and its path, which is
    also the path data of the vector export, holds in order one line per
    consecutive pair whose two ends are both resolved, to the second end of the
    pair: the other pairs contribute nothing and do not stop the loop.  When
    the first pair is resolved the path starts with a move to the first
    letter. *)
Theorem polyline_of_resolved_pairs (s : State) (c : Context2D) (cv : Canvas) :
  ctx s = Some c →
  canvas s = Some cv →
  (2 <= length (typedSequence s))%nat →
  (painted <$> canvas (redrawLines s)) =
    Some [withPath (polyline (typedSequence s) (keyPositions s))
            (applyLineStyle (lines (settings s)) c)] ∧
  strokedPath (redrawLines s) = Some (polyline (typedSequence s) (keyPositions s)) ∧
  exportedPath (exportAsSVG s) = Some (polyline (typedSequence s) (keyPositions s)) ∧
  List.filter isLineTo (polyline (typedSequence s) (keyPositions s))
    = map lineTo (lineTargets (typedSequence s) (keyPositions s)) ∧
  (∀ p0, firstPairStart (typedSequence s) (keyPositions s) = Some p0 →
         polyline (typedSequence s) (keyPositions s)
           = moveTo p0 :: map lineTo (lineTargets (typedSequence s) (keyPositions s))).
Proof.
  intros Hc Hcv Hlen.
  pose proof (redrawLines_stroke s c cv Hc Hcv Hlen) as Hr.
  repeat split.
  - now rewrite Hr.
  - unfold strokedPath. now rewrite Hr.
  - unfold exportedPath. rewrite (exportAsSVG_file s Hlen), last_snoc.
    cbn [body]. now rewrite svgDocument_paths.
  - apply polyline_lineTos.
  - intros p0 Hp. now rewrite polyline_shape, Hp.
Qed.

Lemma polyline_of_resolved_pairs_witness :
  strokedPath (redrawLines topRowPage)
    = Some (polyline (typedSequence topRowPage) (keyPositions topRowPage)) ∧
  exportedPath (exportAsSVG topRowPage)
    = Some (polyline (typedSequence topRowPage) (keyPositions topRowPage)).
Proof.
  edestruct (polyline_of_resolved_pairs topRowPage) as (_ & Hstroke & Hexport & _).
  - vm_compute. reflexivity.
  - vm_compute. reflexivity.
  - vm_compute. lia.
  - split; [exact Hstroke | exact Hexport].
Defined.

(** C2 as worded fails: on [sparsePage] the letters A and C have no position,
    so the specification's path is a move to B and lines to D and E, while the
    loop strokes (and exports) something else. *)
Lemma polyline_not_spec_path :
  specPath (typedSequence sparsePage) (keyPositions sparsePage)
    = [moveTo (centre (keyRect 1)); lineTo (centre (keyRect 3)); lineTo (centre (keyRect 4))] ∧
  strokedPath (redrawLines sparsePage)
    ≠ Some (specPath (typedSequence sparsePage) (keyPositions sparsePage)) ∧
  exportedPath (exportAsSVG sparsePage)
    ≠ Some (specPath (typedSequence sparsePage) (keyPositions sparsePage)).
Proof.
  split; [| split].
  - vm_compute. reflexivity.
  - vm_compute. discriminate.
  - vm_compute. discriminate.
Qed.

(** ** Guards on the drawing surface *)

Lemma redrawLines_unavailable s :
  ctx s = None ∨ canvas s = None → redrawLines s = s.
Proof.
  unfold redrawLines. intros [H | H]; rewrite H; [reflexivity |].
  destruct (ctx s); reflexivity.
Qed.

(** C3, as the code has it. When the canvas or its context is missing, redraw
    returns the state untouched.  Raster export looks at the canvas only:
    without one it returns the state untouched, with one it hands out a
    snapshot whether or not a context exists.  Vector export does not look at
    the surface at all: it returns the state untouched only when fewer than two
    letters are typed, and otherwise hands out a document whose width and
    height are those of the canvas, or undefined without one. *)
Theorem surface_guards (s : State) :
  ctx s = None ∨ canvas s = None →
  redrawLines s = s ∧
  match canvas s with
  | None => exportAsPNG s = s
  | Some cv =>
      downloads (exportAsPNG s) =
        downloads s ++ [{| filename := downloadName (currentText s) ".png";
                           body := PngBody cv |}]
  end ∧
  (if Nat.ltb (length (typedSequence s)) 2
   then exportAsSVG s = s
   else ∃ doc,
       downloads (exportAsSVG s) =
         downloads s ++ [{| filename := downloadName (currentText s) ".svg";
                            body := SvgBody doc |}] ∧
       svg_width doc = (cwidth <$> canvas s) ∧ svg_height doc = (cheight <$> canvas s)).
Proof.
  intros Hmissing. split; [exact (redrawLines_unavailable s Hmissing) |]. split.
  - unfold exportAsPNG. destruct (canvas s); reflexivity.
  - destruct (Nat.ltb_spec (length (typedSequence s)) 2) as [Hlt | Hge].
    + exact (exportAsSVG_noop s Hlt).
    + exists (svgDocument s). split; [exact (exportAsSVG_file s Hge) |].
      split; reflexivity.
Qed.

Lemma surface_guards_witness :
  redrawLines (initial None None) = initial None None ∧
  exportAsPNG (initial None None) = initial None None ∧
  exportAsSVG (initial None None) = initial None None.
Proof.
  destruct (surface_guards (initial None None)) as (Hr & Hp & Hv).
  - left. reflexivity.
  - split; [exact Hr |]. split; [exact Hp | exact Hv].
Defined.

(** C3 as worded fails: [canvaslessPage] has neither canvas nor context, yet
    the vector export hands out a file. *)
Lemma vector_export_without_surface :
  canvas canvaslessPage = None ∧ ctx canvaslessPage = None ∧
  downloads canvaslessPage = [] ∧
  length (downloads (handle ClickExportSVG canvaslessPage)) = 1%nat ∧
  exportAsSVG canvaslessPage ≠ canvaslessPage.
Proof.
  repeat split; try (vm_compute; reflexivity).
  intros H. apply (f_equal (λ s, length (downloads s))) in H.
  vm_compute in H. discriminate.
Qed.

(** ** Counting what the vector export holds *)

Lemma lineTargets_length (pos : gmap string KeyPosition) (sq : list string) :
  Forall (λ k, is_Some (pos !! k)) sq →
  length (lineTargets sq pos) = (length sq - 1)%nat.
Proof.
  intros Hall. rewrite (lineTargets_all_resolved pos sq Hall).
  destruct sq as [|a sq]; [reflexivity |].
  inversion Hall as [|? ? _ Hsq]; subst.
  cbn [tail length]. rewrite (omap_all_resolved pos sq Hsq). lia.
Qed.

(** C4. Vector export changes nothing (no file) when fewer than two letters
    are typed.  With n >= 2 letters, all resolved, it hands out one document
    whose path data holds exactly n - 1 line commands and which holds exactly
    n circles, one at the position of each typed letter in order, each with
    the configured dot size as radius. *)
Theorem vector_export_counts (s : State) :
  ((length (typedSequence s) < 2)%nat → exportAsSVG s = s) ∧
  ((2 <= length (typedSequence s))%nat →
   Forall (λ k, is_Some (keyPositions s !! k)) (typedSequence s) →
   ∃ doc,
     downloads (exportAsSVG s) =
       downloads s ++ [{| filename := downloadName (currentText s) ".svg";
                          body := SvgBody doc |}] ∧
     docLineCommands doc = (length (typedSequence s) - 1)%nat ∧
     length (docCircles doc) = length (typedSequence s) ∧
     map (λ k, keyPositions s !! k) (typedSequence s)
       = map (λ c, Some {| x := cx c; y := cy c |}) (docCircles doc) ∧
     Forall (λ c, r c = dotSize (lines (settings s))) (docCircles doc)).
Proof.
  split; [exact (exportAsSVG_noop s) |].
  intros Hlen Hall. exists (svgDocument s).
  split; [exact (exportAsSVG_file s Hlen) |].
  unfold docLineCommands. rewrite svgDocument_paths, svgDocument_circles.
  cbn [map list_sum d]. rewrite polyline_lineTos, !length_map.
  rewrite (lineTargets_length _ _ Hall), (omap_all_resolved _ _ Hall).
  split; [unfold list_sum; cbn [fold_right]; lia |]. split; [reflexivity |]. split.
  - rewrite map_map. cbn [cx cy]. clear Hlen.
    induction Hall as [|k sq [p Hk] _ IH]; [reflexivity |].
    cbn [map omap list_omap]. rewrite Hk. cbn. rewrite <- IH. now destruct p.
  - apply List.Forall_forall. intros c Hc. apply in_map_iff in Hc as (p & <- & _). reflexivity.
Qed.

Lemma vector_export_counts_witness :
  exportAsSVG (initial None None) = initial None None ∧
  ∃ doc,
    downloads (exportAsSVG topRowPage) =
      downloads topRowPage ++ [{| filename := downloadName (currentText topRowPage) ".svg";
                                  body := SvgBody doc |}] ∧
    docLineCommands doc = 1%nat ∧ length (docCircles doc) = 2%nat.
Proof.
  split.
  - apply (proj1 (vector_export_counts (initial None None))). simpl. lia.
  - destruct (proj2 (vector_export_counts topRowPage)) as (doc & Hd & Hl & Hc & _).
    + vm_compute. lia.
    + vm_compute. repeat constructor; eexists; reflexivity.
    + exists doc. split; [exact Hd |]. split; [exact Hl | exact Hc].
Defined.

(** ** Cancelling timers *)

Lemma clearTimeout_elem h s (t : Timer) :
  t ∈ timers (clearTimeout h s) ↔ t ∈ timers s ∧ h ≠ Some (tid t).
Proof.
  destruct h as [id|]; cbn.
  - rewrite list_elem_of_filter. split.
    + intros [Hne Hin]. split; [exact Hin | congruence].
    + intros [Hin Hne]. split; [congruence | exact Hin].
  - split; [intros H; split; [exact H | discriminate] | intros [H _]; exact H].
Qed.

Lemma cancel_both_elem s (t : Timer) :
  t ∈ timers (clearTimeout (exportTimeout s) (clearTimeout (fadeTimeout s) s)) ↔
  t ∈ timers s ∧ fadeTimeout s ≠ Some (tid t) ∧ exportTimeout s ≠ Some (tid t).
Proof. rewrite !clearTimeout_elem. tauto. Qed.

Lemma confirmTyping_timers s :
  timers (confirmTyping s)
  = timers (clearTimeout (exportTimeout s) (clearTimeout (fadeTimeout s) s)).
Proof. reflexivity. Qed.

(** ** Clear *)

Lemma clearCanvas_timers s :
  timers (clearCanvas s)
  = timers (clearTimeout (exportTimeout s) (clearTimeout (fadeTimeout s) s)).
Proof.
  destruct s as [cv c sq tx kv op sh st ft et ho se kp nw ts nx dm dl].
  unfold clearCanvas. destruct ft, et, c, cv; reflexivity.
Qed.

Lemma clearCanvas_fade s :
  keyboardOpacity (clearCanvas s) = 1%Q ∧ showExportButtons (clearCanvas s) = false.
Proof.
  destruct s as [cv c sq tx kv op sh st ft et ho se kp nw ts nx dm dl].
  unfold clearCanvas. destruct ft, et, c, cv; split; reflexivity.
Qed.

Lemma clearCanvas_idempotent s : clearCanvas (clearCanvas s) = clearCanvas s.
Proof.
  destruct s as [cv c sq tx kv op sh st ft et ho se kp nw ts nx dm dl].
  destruct ft as [f|], et as [e|], c as [c|], cv as [cv|]; unfold clearCanvas; cbv zeta.
  all: cbv [clearTimeout with_timers with_canvas with_typedSequence with_currentText
         with_showExportButtons with_keyboardOpacity
         canvas ctx typedSequence currentText keyboardVisible keyboardOpacity
         showExportButtons showSettings fadeTimeout exportTimeout isHovering settings
         keyPositions now timers nextTimerId dom downloads clearRect cwidth cheight].
  all: try reflexivity.
  all: f_equal.
  all: rewrite !list_filter_filter; apply list_filter_iff; intros x; tauto.
Qed.

(** ** The timer queue *)

Lemma popEarliest_None ts : popEarliest ts = None → ts = [].
Proof.
  destruct ts as [|t rest]; [reflexivity |]. cbn [popEarliest].
  destruct (popEarliest rest) as [[u rest']|]; [| discriminate].
  destruct (due u <? due t); discriminate.
Qed.

(** The timer that fires is taken out of the queue, the others keep their
    order, and none of them is due earlier. *)
Lemma popEarliest_spec ts : ∀ t rest,
  popEarliest ts = Some (t, rest) →
  ∃ l1 l2, ts = l1 ++ t :: l2 ∧ rest = l1 ++ l2 ∧ Forall (λ u, due t <= due u) ts.
Proof.
  induction ts as [|a r IH]; intros t rest; [discriminate |].
  cbn [popEarliest]. destruct (popEarliest r) as [[u r']|] eqn:E.
  - destruct (IH u r' eq_refl) as (l1 & l2 & Hr & Hr' & Hall).
    destruct (Z.ltb_spec (due u) (due a)) as [Hlt | Hge]; intros [= <- <-].
    + exists (a :: l1), l2. rewrite Hr, Hr'. split; [reflexivity |]. split; [reflexivity |].
      rewrite <- Hr. constructor; [lia | exact Hall].
    + exists [], r. split; [reflexivity |]. split; [reflexivity |].
      constructor; [lia |]. eapply Forall_impl; [exact Hall |]. cbn. intros; lia.
  - intros [= <- <-]. apply popEarliest_None in E. subst r.
    exists [], []. split; [reflexivity |]. split; [reflexivity |].
    constructor; [lia | constructor].
Qed.

Lemma popDue_Some target ts t rest :
  popDue target ts = Some (t, rest) →
  due t <= target ∧
  ∃ l1 l2, ts = l1 ++ t :: l2 ∧ rest = l1 ++ l2 ∧ Forall (λ u, due t <= due u) ts.
Proof.
  unfold popDue. destruct (popEarliest ts) as [[u r]|] eqn:E; [| discriminate].
  destruct (Z.leb_spec (due u) target); [| discriminate].
  intros [= <- <-]. split; [assumption |]. apply popEarliest_spec, E.
Qed.

Lemma popDue_None target ts :
  popDue target ts = None → Forall (λ u, target < due u) ts.
Proof.
  unfold popDue. destruct (popEarliest ts) as [[u r]|] eqn:E.
  - destruct (Z.leb_spec (due u) target); [discriminate |]. intros _.
    destruct (popEarliest_spec ts u r E) as (_ & _ & _ & _ & Hall).
    eapply Forall_impl; [exact Hall |]. cbn. intros; lia.
  - intros _. apply popEarliest_None in E. subst ts. constructor.
Qed.

Lemma fuelFor_app l1 l2 : fuelFor (l1 ++ l2) = (fuelFor l1 + fuelFor l2)%nat.
Proof. unfold fuelFor. now rewrite map_app, list_sum_app. Qed.

Lemma fuelFor_cons t l : fuelFor (t :: l) = (weight (cb t) + fuelFor l)%nat.
Proof. reflexivity. Qed.

Lemma weight_pos f : (1 <= weight f)%nat.
Proof. destruct f; cbn; lia. Qed.

Lemma fuelFor_zero ts : fuelFor ts = O → ts = [].
Proof.
  destruct ts as [|t l]; [reflexivity |]. rewrite fuelFor_cons.
  pose proof (weight_pos (cb t)). lia.
Qed.

(** ** What the callbacks do to the fade signals *)

Lemma redraw_frame s :
  timers (redrawLines s) = timers s ∧
  keyboardOpacity (redrawLines s) = keyboardOpacity s ∧
  showExportButtons (redrawLines s) = showExportButtons s ∧
  isHovering (redrawLines s) = isHovering s ∧
  now (redrawLines s) = now s ∧
  fadeTimeout (redrawLines s) = fadeTimeout s ∧
  exportTimeout (redrawLines s) = exportTimeout s.
Proof.
  unfold redrawLines. destruct (ctx s), (canvas s); try (repeat split; reflexivity).
  destruct (Nat.eqb _ 0); [repeat split; reflexivity |].
  destruct (Nat.leb 2 _); repeat split; reflexivity.
Qed.

Lemma calculate_frame s :
  timers (calculateKeyPositions s) = timers s ∧
  keyboardOpacity (calculateKeyPositions s) = keyboardOpacity s ∧
  showExportButtons (calculateKeyPositions s) = showExportButtons s ∧
  isHovering (calculateKeyPositions s) = isHovering s ∧
  now (calculateKeyPositions s) = now s ∧
  fadeTimeout (calculateKeyPositions s) = fadeTimeout s ∧
  exportTimeout (calculateKeyPositions s) = exportTimeout s.
Proof. unfold calculateKeyPositions. destruct (dom s); repeat split; reflexivity. Qed.

Lemma fire_redraw t rest s :
  cb t = CbRedraw →
  timers (fire t rest s) = rest ∧
  keyboardOpacity (fire t rest s) = keyboardOpacity s ∧
  showExportButtons (fire t rest s) = showExportButtons s ∧
  isHovering (fire t rest s) = isHovering s ∧
  now (fire t rest s) = Z.max (now s) (due t).
Proof.
  intros Hcb. unfold fire. rewrite Hcb. cbn [runCallback].
  set (s1 := with_now _ _).
  destruct (redraw_frame (calculateKeyPositions s1)) as (-> & -> & -> & -> & -> & _).
  destruct (calculate_frame s1) as (-> & -> & -> & -> & -> & _).
  repeat split; reflexivity.
Qed.

Lemma fire_fade t rest s :
  cb t = CbFade → isHovering s = false →
  timers (fire t rest s) =
    rest ++ [{| tid := nextTimerId s; due := Z.max (now s) (due t) + 1000; cb := CbReveal |}] ∧
  keyboardOpacity (fire t rest s) = (3 # 10)%Q ∧
  showExportButtons (fire t rest s) = showExportButtons s ∧
  isHovering (fire t rest s) = false ∧
  now (fire t rest s) = Z.max (now s) (due t).
Proof.
  intros Hcb Hh. unfold fire. rewrite Hcb. cbn [runCallback]. unfold fadeFired.
  cbn. rewrite Hh. repeat split; try reflexivity. cbn. exact Hh.
Qed.

Lemma fire_reveal t rest s :
  cb t = CbReveal → isHovering s = false → keyboardOpacity s = (3 # 10)%Q →
  timers (fire t rest s) = rest ∧
  keyboardOpacity (fire t rest s) = (3 # 10)%Q ∧
  showExportButtons (fire t rest s) = true ∧
  isHovering (fire t rest s) = false ∧
  now (fire t rest s) = Z.max (now s) (due t).
Proof.
  intros Hcb Hh Ho. unfold fire. rewrite Hcb. cbn [runCallback]. unfold revealFired.
  cbn. rewrite Hh, Ho. cbn. repeat split; try reflexivity; assumption.
Qed.

Lemma fadeFired_timers s :
  timers (fadeFired s) =
    timers s ++ (if isHovering s then []
                 else [{| tid := nextTimerId s; due := now s + 1000; cb := CbReveal |}]).
Proof.
  unfold fadeFired. destruct (isHovering s); [now rewrite app_nil_r | reflexivity].
Qed.

Lemma revealFired_timers s : timers (revealFired s) = timers s.
Proof. unfold revealFired. destruct (negb _ && _)%bool; reflexivity. Qed.

(** Firing a timer uses up fuel: the queue loses the timer and gains at most
    one reveal callback, and only when the timer was a fade callback. *)
Lemma fire_fuel t l1 l2 s :
  (fuelFor (timers (fire t (l1 ++ l2) s)) < fuelFor (l1 ++ t :: l2))%nat.
Proof.
  rewrite !fuelFor_app, fuelFor_cons. unfold fire.
  set (s1 := with_now _ _).
  assert (Hs1 : timers s1 = l1 ++ l2) by reflexivity.
  destruct (cb t) eqn:Hcb; cbn [runCallback weight].
  - destruct (redraw_frame (calculateKeyPositions s1)) as (-> & _).
    destruct (calculate_frame s1) as (-> & _).
    rewrite Hs1, fuelFor_app. lia.
  - rewrite fadeFired_timers, Hs1, !fuelFor_app.
    destruct (isHovering s1); cbn [fuelFor map list_sum]; unfold fuelFor; simpl; lia.
  - rewrite revealFired_timers, Hs1, fuelFor_app. lia.
Qed.

(** With the fuel [elapse] gives it, the loop stops only when nothing is due:
    every timer still pending is due after the target time. *)
Lemma runTimers_drains target fuel : ∀ s,
  (fuelFor (timers s) <= fuel)%nat →
  Forall (λ u, target < due u) (timers (runTimers fuel target s)).
Proof.
  induction fuel as [|fuel IH]; intros s Hfuel.
  - assert (timers s = []) as Hnil by (apply fuelFor_zero; lia).
    cbn. rewrite Hnil. constructor.
  - cbn [runTimers]. destruct (popDue target (timers s)) as [[t rest]|] eqn:E.
    + destruct (popDue_Some _ _ _ _ E) as (_ & l1 & l2 & Hts & -> & _).
      apply IH. pose proof (fire_fuel t l1 l2 s) as Hlt. rewrite <- Hts in Hlt. lia.
    + apply popDue_None in E. exact E.
Qed.

Lemma elapse_drains dt s :
  Forall (λ u, now s + Z.max 0 dt < due u) (timers (elapse dt s)).
Proof. apply runTimers_drains. reflexivity. Qed.

(** ** The fade sequence *)

Lemma fadeView_app l1 l2 : fadeView (l1 ++ l2) = fadeView l1 ++ fadeView l2.
Proof. unfold fadeView. now rewrite List.filter_app, map_app. Qed.

Lemma fadeView_cons t l :
  fadeView (t :: l) = (if isFadeKind t then [(cb t, due t)] else []) ++ fadeView l.
Proof. unfold fadeView. cbn [List.filter]. destruct (isFadeKind t); reflexivity. Qed.

Lemma fadeView_nil (l : list Timer) :
  (∀ t, t ∈ l → isFadeKind t = false) → fadeView l = [].
Proof.
  induction l as [|t l IH]; intros H; [reflexivity |].
  rewrite fadeView_cons, (H t), IH; [reflexivity | | left].
  intros u Hu. apply H. now right.
Qed.

(** Taking a redraw callback out of the queue leaves the view as it is. *)
Lemma fadeView_drop_redraw t l1 l2 :
  cb t = CbRedraw → fadeView (l1 ++ l2) = fadeView (l1 ++ t :: l2).
Proof.
  intros Hcb. rewrite !fadeView_app, fadeView_cons.
  unfold isFadeKind. now rewrite Hcb.
Qed.

(** Taking out the only fade or reveal callback empties the view. *)
Lemma fadeView_drop_only t l1 l2 f dd :
  isFadeKind t = true → fadeView (l1 ++ t :: l2) = [(f, dd)] →
  cb t = f ∧ due t = dd ∧ fadeView (l1 ++ l2) = [].
Proof.
  intros Hk. rewrite !fadeView_app, fadeView_cons, Hk.
  destruct (fadeView l1) as [|p v1]; cbn.
  - intros [= -> -> ->]. repeat split; reflexivity.
  - intros [= _ H]. destruct v1; discriminate.
Qed.

Lemma fadeView_elem (ts : list Timer) f dd :
  (f, dd) ∈ fadeView ts → ∃ u, u ∈ ts ∧ cb u = f ∧ due u = dd.
Proof.
  induction ts as [|t ts IH]; [intros H; inversion H |].
  rewrite fadeView_cons. intros H. apply elem_of_app in H as [H | H].
  - destruct (isFadeKind t); [| inversion H].
    apply list_elem_of_singleton in H. injection H as -> ->.
    exists t. split; [left | split; reflexivity].
  - destruct (IH H) as (u & Hu & Hcb & Hdue). exists u. split; [now right | now split].
Qed.

Lemma fadeView_only_due (ts : list Timer) f dd (P : Timer → Prop) :
  fadeView ts = [(f, dd)] → Forall P ts → ∃ u, P u ∧ cb u = f ∧ due u = dd.
Proof.
  intros Hv Hall. destruct (fadeView_elem ts f dd) as (u & Hu & Hcb & Hdue).
  - rewrite Hv. left.
  - exists u. split; [| now split]. rewrite Forall_forall in Hall. now apply Hall.
Qed.

Lemma expectedFade_active d : d < 2000 → expectedFade d = Active.
Proof. intros H. unfold expectedFade. destruct (Z.ltb_spec d 2000); [reflexivity | lia]. Qed.

Lemma expectedFade_fading d : 2000 <= d → d < 3000 → expectedFade d = Fading.
Proof.
  intros H1 H2. unfold expectedFade.
  destruct (Z.ltb_spec d 2000); [lia |]. destruct (Z.ltb_spec d 3000); [reflexivity | lia].
Qed.

Lemma expectedFade_revealed d : 3000 <= d → expectedFade d = Revealed.
Proof.
  intros H. unfold expectedFade.
  destruct (Z.ltb_spec d 2000); [lia |]. destruct (Z.ltb_spec d 3000); [lia | reflexivity].
Qed.

Lemma fadeState_with_now v s : fadeState (with_now v s) = fadeState s.
Proof. reflexivity. Qed.

(** Once the queue is drained up to [target], the phase fixes the state. *)
Lemma phase_settled t0 target s :
  phase t0 target s → Forall (λ u, target < due u) (timers s) →
  fadeState s = Some (expectedFade (target - t0)).
Proof.
  intros [Hv Hn Ho He | Hge Hv Ho He | Hge Hv Ho He] Hall; unfold fadeState;
    rewrite Ho, He; cbn.
  - destruct (fadeView_only_due _ _ _ _ Hv Hall) as (u & Hu & _ & Hdue).
    rewrite expectedFade_active; [reflexivity | lia].
  - destruct (fadeView_only_due _ _ _ _ Hv Hall) as (u & Hu & _ & Hdue).
    rewrite expectedFade_fading; [reflexivity | lia | lia].
  - rewrite expectedFade_revealed; [reflexivity | lia].
Qed.

(** Firing the next due timer keeps the fade sequence on schedule. *)
Lemma fire_phase t0 target t l1 l2 s :
  isHovering s = false →
  due t <= target →
  Forall (λ u, due t <= due u) (timers s) →
  timers s = l1 ++ t :: l2 →
  phase t0 target s →
  isHovering (fire t (l1 ++ l2) s) = false ∧ phase t0 target (fire t (l1 ++ l2) s).
Proof.
  intros Hh Hdue Hmin Hts Hph. destruct (cb t) eqn:Hcb.
  - (* a redraw *)
    destruct (fire_redraw t (l1 ++ l2) s Hcb) as (Ht & Ho & He & Hh' & Hn).
    split; [now rewrite Hh' |].
    assert (Hview : fadeView (timers (fire t (l1 ++ l2) s)) = fadeView (timers s))
      by (rewrite Ht, Hts; now apply fadeView_drop_redraw).
    destruct Hph as [Hv Hnow Hop Hex | Hge Hv Hop Hex | Hge Hv Hop Hex].
    + apply phase_active; rewrite ?Hview, ?Ho, ?He, ?Hn; try assumption.
      destruct (fadeView_only_due _ _ _ _ Hv Hmin) as (u & Hu & _ & Hd). lia.
    + apply phase_fading; rewrite ?Hview, ?Ho, ?He; assumption.
    + apply phase_revealed; rewrite ?Hview, ?Ho, ?He; assumption.
  - (* the fade callback *)
    destruct (fire_fade t (l1 ++ l2) s Hcb Hh) as (Ht & Ho & He & Hh' & Hn).
    split; [exact Hh' |].
    assert (Hk : isFadeKind t = true) by (unfold isFadeKind; now rewrite Hcb).
    destruct Hph as [Hv Hnow Hop Hex | Hge Hv Hop Hex | Hge Hv Hop Hex];
      rewrite Hts in Hv.
    + destruct (fadeView_drop_only _ _ _ _ _ Hk Hv) as (_ & Hd & Hrest).
      apply phase_fading.
      * lia.
      * rewrite Ht, fadeView_app, Hrest. cbn. do 2 f_equal. lia.
      * exact Ho.
      * now rewrite He.
    + destruct (fadeView_drop_only _ _ _ _ _ Hk Hv) as (Hc & _). congruence.
    + rewrite fadeView_app, fadeView_cons, Hk in Hv.
      destruct (fadeView l1); discriminate.
  - (* the reveal callback *)
    assert (Hk : isFadeKind t = true) by (unfold isFadeKind; now rewrite Hcb).
    destruct Hph as [Hv Hnow Hop Hex | Hge Hv Hop Hex | Hge Hv Hop Hex];
      rewrite Hts in Hv.
    + destruct (fadeView_drop_only _ _ _ _ _ Hk Hv) as (Hc & _). congruence.
    + destruct (fadeView_drop_only _ _ _ _ _ Hk Hv) as (_ & Hd & Hrest).
      destruct (fire_reveal t (l1 ++ l2) s Hcb Hh Hop) as (Ht & Ho & He & Hh' & Hn).
      split; [exact Hh' |].
      apply phase_revealed.
      * lia.
      * now rewrite Ht.
      * exact Ho.
      * exact He.
    + rewrite fadeView_app, fadeView_cons, Hk in Hv.
      destruct (fadeView l1); discriminate.
Qed.

Lemma runTimers_schedule t0 target fuel : ∀ s,
  (fuelFor (timers s) <= fuel)%nat →
  isHovering s = false →
  phase t0 target s →
  fadeState (runTimers fuel target s) = Some (expectedFade (target - t0)).
Proof.
  induction fuel as [|fuel IH]; intros s Hfuel Hh Hph.
  - assert (timers s = []) as Hnil by (apply fuelFor_zero; lia).
    cbn [runTimers]. rewrite fadeState_with_now.
    apply (phase_settled t0 target s Hph). rewrite Hnil. constructor.
  - cbn [runTimers]. destruct (popDue target (timers s)) as [[t rest]|] eqn:E.
    + destruct (popDue_Some _ _ _ _ E) as (Hdue & l1 & l2 & Hts & -> & Hmin).
      destruct (fire_phase t0 target t l1 l2 s Hh Hdue Hmin Hts Hph) as [Hh' Hph'].
      apply IH; [| exact Hh' | exact Hph'].
      pose proof (fire_fuel t l1 l2 s) as Hlt. rewrite <- Hts in Hlt. lia.
    + rewrite fadeState_with_now.
      apply (phase_settled t0 target s Hph), popDue_None, E.
Qed.

(** ** Starting the fade sequence *)

Lemma cancel_both_view s :
  timersTracked s = true →
  fadeView (timers (clearTimeout (exportTimeout s) (clearTimeout (fadeTimeout s) s))) = [].
Proof.
  intros Htr. apply fadeView_nil. intros t Ht.
  apply cancel_both_elem in Ht as (Hin & Hf & He).
  unfold timersTracked in Htr. rewrite forallb_forall in Htr.
  specialize (Htr t (proj1 (list_elem_of_In _ _) Hin)).
  unfold tracked in Htr. unfold isFadeKind.
  destruct (cb t); [reflexivity | |]; apply bool_decide_eq_true in Htr; contradiction.
Qed.

Lemma cancel_both_frame s s' :
  timers s' = timers s → fadeTimeout s' = fadeTimeout s → exportTimeout s' = exportTimeout s →
  timers (clearTimeout (exportTimeout s') (clearTimeout (fadeTimeout s') s'))
  = timers (clearTimeout (exportTimeout s) (clearTimeout (fadeTimeout s) s)).
Proof.
  intros Ht -> ->. destruct (fadeTimeout s), (exportTimeout s); cbn; now rewrite Ht.
Qed.

Lemma resetFade_fade s :
  timers (resetFade s)
    = timers (clearTimeout (exportTimeout s) (clearTimeout (fadeTimeout s) s)) ∧
  keyboardOpacity (resetFade s) = 1%Q ∧
  showExportButtons (resetFade s) = false ∧
  isHovering (resetFade s) = isHovering s ∧
  now (resetFade s) = now s.
Proof.
  unfold resetFade. destruct (fadeTimeout s), (exportTimeout s); repeat split; reflexivity.
Qed.

Lemma startFadeTimer_fade s :
  timers (startFadeTimer s)
    = timers s ++ [{| tid := nextTimerId s; due := now s + 2000; cb := CbFade |}] ∧
  keyboardOpacity (startFadeTimer s) = keyboardOpacity s ∧
  showExportButtons (startFadeTimer s) = showExportButtons s ∧
  isHovering (startFadeTimer s) = isHovering s ∧
  now (startFadeTimer s) = now s.
Proof. repeat split; reflexivity. Qed.

(** Resetting the fade signals of a page that differs from a tracked page [s]
    in nothing the fade machine reads, and then starting the countdown (with at
    most redraw callbacks scheduled in between), begins a fade sequence. *)
Lemma restart_phase target s s' (between : State → State) :
  timersTracked s = true →
  timers s' = timers s → fadeTimeout s' = fadeTimeout s → exportTimeout s' = exportTimeout s →
  isHovering s' = isHovering s → now s' = now s →
  (∀ u, ∃ extra,
     timers (between u) = timers u ++ extra ∧ fadeView extra = [] ∧
     keyboardOpacity (between u) = keyboardOpacity u ∧
     showExportButtons (between u) = showExportButtons u ∧
     isHovering (between u) = isHovering u ∧ now (between u) = now u) →
  isHovering (startFadeTimer (between (resetFade s'))) = isHovering s ∧
  now (startFadeTimer (between (resetFade s'))) = now s ∧
  phase (now s) target (startFadeTimer (between (resetFade s'))).
Proof.
  intros Htr Ht Hf He Hh Hn Hbetween.
  destruct (resetFade_fade s') as (Rt & Ro & Re & Rh & Rn).
  destruct (Hbetween (resetFade s')) as (extra & Bt & Bv & Bo & Be & Bh & Bn).
  destruct (startFadeTimer_fade (between (resetFade s'))) as (St & So & Se & Sh & Sn).
  split; [congruence |]. split; [congruence |].
  apply phase_active.
  - rewrite St, Bt, Rt, (cancel_both_frame s s' Ht Hf He), !fadeView_app.
    rewrite (cancel_both_view s Htr), Bv. cbn. do 2 f_equal. congruence.
  - rewrite Sn, Bn, Rn, Hn. lia.
  - congruence.
  - congruence.
Qed.

Lemma between_nothing (u : State) :
  ∃ extra,
    timers u = timers u ++ extra ∧ fadeView extra = [] ∧
    keyboardOpacity u = keyboardOpacity u ∧ showExportButtons u = showExportButtons u ∧
    isHovering u = isHovering u ∧ now u = now u.
Proof. exists []. rewrite app_nil_r. repeat split; reflexivity. Qed.

Lemma between_redraw (u : State) :
  ∃ extra,
    timers (snd (setTimeout CbRedraw 10 u)) = timers u ++ extra ∧ fadeView extra = [] ∧
    keyboardOpacity (snd (setTimeout CbRedraw 10 u)) = keyboardOpacity u ∧
    showExportButtons (snd (setTimeout CbRedraw 10 u)) = showExportButtons u ∧
    isHovering (snd (setTimeout CbRedraw 10 u)) = isHovering u ∧
    now (snd (setTimeout CbRedraw 10 u)) = now u.
Proof. eexists. repeat split; reflexivity. Qed.

Lemma slice_init_length s :
  Nat.ltb 1 (String.length s) = true → Nat.ltb 0 (String.length (slice_init s)) = true.
Proof. destruct s as [|a [|b s]]; try discriminate. reflexivity. Qed.

Lemma length_gt_one s :
  Nat.ltb 1 (String.length s) = true → Nat.ltb 0 (String.length s) = true.
Proof. destruct s as [|a [|b s]]; try discriminate. reflexivity. Qed.

Lemma key_restarts_fade target key s :
  isHovering s = false →
  timersTracked s = true →
  restartsFade key s = true →
  isHovering (handleKeyPress key s) = false ∧
  now (handleKeyPress key s) = now s ∧
  phase (now s) target (handleKeyPress key s).
Proof.
  intros Hh Htr Hk. rewrite <- Hh at 1. unfold restartsFade in Hk.
  apply orb_prop in Hk as [Hk | Hk]; [apply orb_prop in Hk as [Hk | Hk] |].
  - (* a letter *)
    rewrite (handleKeyPress_letter key s Hk).
    apply (restart_phase target s
             (with_typedSequence (typedSequence s ++ [toUpperCase key])
                (with_currentText (currentText s +:+ toLowerCase (toUpperCase key)) s))
             (λ u, snd (setTimeout CbRedraw 10 u)));
      try reflexivity; [exact Htr | exact between_redraw].
  - (* an accepted space *)
    apply andb_prop in Hk as [Hk Hend]. apply andb_prop in Hk as [Hkey Hlen].
    apply String.eqb_eq in Hkey. subst key. rewrite handleKeyPress_space.
    unfold addSpace. rewrite Hlen, Hend. cbn [andb].
    apply (restart_phase target s (with_currentText (currentText s +:+ " ") s) (λ u, u));
      try reflexivity; [exact Htr | exact between_nothing].
  - (* a backspace that leaves text *)
    apply andb_prop in Hk as [Hkey Hlen].
    apply String.eqb_eq in Hkey. subst key. rewrite handleKeyPress_backspace.
    unfold removeLetter. rewrite (length_gt_one _ Hlen).
    set (s1 := with_currentText _ s).
    set (s2 := if matchAnyLetter _ then _ else s1).
    assert (H2 : timers s2 = timers s ∧ fadeTimeout s2 = fadeTimeout s ∧
                 exportTimeout s2 = exportTimeout s ∧ isHovering s2 = isHovering s ∧
                 now s2 = now s ∧ currentText s2 = slice_init (currentText s)).
    { subst s2 s1. destruct (matchAnyLetter _); repeat split; reflexivity. }
    destruct H2 as (Ht & Hf & He & Hho & Hn & Htx).
    destruct (redraw_frame s2) as (Rt & _ & _ & Rh & Rn & Rf & Re).
    assert (Hlen' : Nat.ltb 0 (String.length (currentText (resetFade (redrawLines s2)))) = true).
    { destruct (resetFade_typed (redrawLines s2)) as [_ ->].
      destruct (redrawLines_typed s2) as [_ ->].
      rewrite Htx. apply slice_init_length, Hlen. }
    cbv zeta. rewrite Hlen'.
    apply (restart_phase target s (redrawLines s2) (λ u, u));
      try congruence; exact between_nothing.
Qed.

(** C5, as the code has it. On a page that is not hovered and whose pending
    fade and reveal callbacks are the ones held in [fadeTimeout] and
    [exportTimeout], press a key that restarts the countdown (a letter, an
    accepted space, a backspace that leaves text) and let [t] >= 0
    milliseconds pass with no other event: the fade machine is Active for
    [t] < 2000, Fading for 2000 <= [t] < 3000 and Revealed from 3000 on. *)
Theorem fade_schedule (s : State) (key : string) (t : Z) :
  isHovering s = false →
  timersTracked s = true →
  restartsFade key s = true →
  0 <= t →
  fadeState (elapse t (handleKeyPress key s)) = Some (expectedFade t).
Proof.
  intros Hh Htr Hk Ht. unfold elapse.
  destruct (key_restarts_fade (now (handleKeyPress key s) + Z.max 0 t) key s Hh Htr Hk)
    as (Hh' & Hn & Hph).
  rewrite (runTimers_schedule (now s) _ _ (handleKeyPress key s) (Nat.le_refl _) Hh' Hph).
  rewrite Hn. do 2 f_equal. lia.
Qed.

Lemma fade_schedule_witness :
  fadeState (elapse 1999 (handleKeyPress "a" (initial None None))) = Some Active ∧
  fadeState (elapse 2000 (handleKeyPress "a" (initial None None))) = Some Fading ∧
  fadeState (elapse 3000 (handleKeyPress "a" (initial None None))) = Some Revealed.
Proof.
  split; [| split].
  - apply (fade_schedule (initial None None) "a" 1999); [reflexivity .. | lia].
  - apply (fade_schedule (initial None None) "a" 2000); [reflexivity .. | lia].
  - apply (fade_schedule (initial None None) "a" 3000); [reflexivity .. | lia].
Defined.

(** C5 as worded fails for the backspace that empties the text: it changes
    [currentText], no countdown starts, and the machine is still Active 2500
    and 5000 milliseconds later. *)
Lemma backspace_to_empty_never_fades :
  isHovering oneLetterPage = false ∧
  currentText oneLetterPage = "a" ∧
  currentText (handleKeyPress "Backspace" oneLetterPage) = "" ∧
  fadeState (elapse 2500 (handleKeyPress "Backspace" oneLetterPage)) = Some Active ∧
  fadeState (elapse 2500 (handleKeyPress "Backspace" oneLetterPage))
    ≠ Some (expectedFade 2500) ∧
  fadeState (elapse 5000 (handleKeyPress "Backspace" oneLetterPage))
    ≠ Some (expectedFade 5000).
Proof.
  repeat split; try (vm_compute; reflexivity); vm_compute; discriminate.
Qed.

(** ** Pages reached without hovering keep their timers tracked *)

Lemma fadeView_nil_inv (l : list Timer) t :
  fadeView l = [] → In t l → isFadeKind t = false.
Proof.
  induction l as [|a l IH]; [intros _ [] |].
  rewrite fadeView_cons. intros Hv [-> | Hin].
  - destruct (isFadeKind t); [discriminate | reflexivity].
  - apply IH; [| exact Hin]. destruct (isFadeKind a); [discriminate | exact Hv].
Qed.

Lemma redraw_tracked s t : isFadeKind t = false → tracked s t = true.
Proof. unfold isFadeKind, tracked. destruct (cb t); [reflexivity | discriminate ..]. Qed.

Lemma tidy_intro s :
  isHovering s = false →
  (∀ t, In t (timers s) → isFadeKind t = true → tracked s t = true) →
  (length (fadeView (timers s)) <= 1)%nat →
  fadeTidy s.
Proof.
  intros Hh Htr Hlen. split; [exact Hh |]. split; [| exact Hlen].
  unfold timersTracked. apply forallb_forall. intros t Hin.
  destruct (isFadeKind t) eqn:Hk; [now apply Htr | now apply redraw_tracked].
Qed.

Lemma tidy_no_fade s :
  isHovering s = false → fadeView (timers s) = [] → fadeTidy s.
Proof.
  intros Hh Hv. apply tidy_intro; [exact Hh | | rewrite Hv; cbn; lia].
  intros t Hin Hk. rewrite (fadeView_nil_inv _ t Hv Hin) in Hk. discriminate.
Qed.

Lemma tidy_tracked s t :
  fadeTidy s → In t (timers s) → tracked s t = true.
Proof.
  intros (_ & Htr & _) Hin. unfold timersTracked in Htr.
  rewrite forallb_forall in Htr. now apply Htr.
Qed.

Lemma tracked_frame s s' t :
  fadeTimeout s' = fadeTimeout s → exportTimeout s' = exportTimeout s →
  tracked s' t = tracked s t.
Proof. intros Hf He. unfold tracked. now rewrite Hf, He. Qed.

(** Changing nothing the fade machine reads, or dropping timers, keeps a
    page tidy. *)
Lemma tidy_frame s s' :
  (∀ t, In t (timers s') → In t (timers s)) →
  fadeView (timers s') = fadeView (timers s) →
  fadeTimeout s' = fadeTimeout s → exportTimeout s' = exportTimeout s →
  isHovering s' = isHovering s →
  fadeTidy s → fadeTidy s'.
Proof.
  intros Hsub Hv Hf He Hh Htidy. pose proof Htidy as (Hho & _ & Hlen).
  apply tidy_intro; [congruence | | now rewrite Hv].
  intros t Hin _. rewrite (tracked_frame s s' t Hf He).
  apply (tidy_tracked s t Htidy), Hsub, Hin.
Qed.

Lemma tidy_same_timers s s' :
  timers s' = timers s →
  fadeTimeout s' = fadeTimeout s → exportTimeout s' = exportTimeout s →
  isHovering s' = isHovering s →
  fadeTidy s → fadeTidy s'.
Proof.
  intros Ht. apply tidy_frame; rewrite Ht; [tauto | reflexivity].
Qed.

Lemma tidy_cancel s s' :
  timers s' = timers (clearTimeout (exportTimeout s) (clearTimeout (fadeTimeout s) s)) →
  isHovering s' = isHovering s →
  fadeTidy s → fadeTidy s'.
Proof.
  intros Ht Hh (Hho & Htr & _). apply tidy_no_fade; [congruence |].
  rewrite Ht. apply cancel_both_view, Htr.
Qed.

Lemma tidy_restart s s' (between : State → State) :
  timers s' = timers s → fadeTimeout s' = fadeTimeout s → exportTimeout s' = exportTimeout s →
  isHovering s' = isHovering s →
  (∀ u, ∃ extra,
     timers (between u) = timers u ++ extra ∧ fadeView extra = [] ∧
     keyboardOpacity (between u) = keyboardOpacity u ∧
     showExportButtons (between u) = showExportButtons u ∧
     isHovering (between u) = isHovering u ∧ now (between u) = now u) →
  fadeTidy s → fadeTidy (startFadeTimer (between (resetFade s'))).
Proof.
  intros Ht Hf He Hh Hbetween (Hho & Htr & _).
  destruct (resetFade_fade s') as (Rt & _ & _ & Rh & _).
  destruct (Hbetween (resetFade s')) as (extra & Bt & Bv & _ & _ & Bh & _).
  destruct (startFadeTimer_fade (between (resetFade s'))) as (St & _ & _ & Sh & _).
  assert (Hold : fadeView (timers (between (resetFade s'))) = []).
  { rewrite Bt, Rt, (cancel_both_frame s s' Ht Hf He), fadeView_app.
    now rewrite (cancel_both_view s Htr), Bv. }
  apply tidy_intro.
  - congruence.
  - intros t Hin Hk. rewrite St in Hin. apply in_app_or in Hin as [Hin | [<- | []]].
    + rewrite (fadeView_nil_inv _ t Hold Hin) in Hk. discriminate.
    + unfold tracked. cbn [cb tid]. apply bool_decide_eq_true. reflexivity.
  - rewrite St, fadeView_app, Hold. cbn. lia.
Qed.

Lemma handleKeyPress_tidy key s : fadeTidy s → fadeTidy (handleKeyPress key s).
Proof.
  intros Htidy. unfold handleKeyPress.
  destruct (matchSingleUpper (toUpperCase key)).
  { apply (tidy_restart s
             (with_typedSequence (typedSequence s ++ [toUpperCase key])
                (with_currentText (currentText s +:+ toLowerCase (toUpperCase key)) s))
             (λ u, snd (setTimeout CbRedraw 10 u)));
      try reflexivity; [exact between_redraw | exact Htidy]. }
  destruct (String.eqb (toUpperCase key) " ").
  { unfold addSpace. destruct (Nat.ltb 0 _ && _)%bool; [| exact Htidy].
    apply (tidy_restart s (with_currentText (currentText s +:+ " ") s) (λ u, u));
      try reflexivity; [exact between_nothing | exact Htidy]. }
  destruct (String.eqb (toUpperCase key) "BACKSPACE").
  { unfold removeLetter. destruct (Nat.ltb 0 (String.length (currentText s))); [| exact Htidy].
    set (s1 := with_currentText _ s).
    set (s2 := if matchAnyLetter _ then _ else s1).
    assert (H2 : timers s2 = timers s ∧ fadeTimeout s2 = fadeTimeout s ∧
                 exportTimeout s2 = exportTimeout s ∧ isHovering s2 = isHovering s).
    { subst s2 s1. destruct (matchAnyLetter _); repeat split; reflexivity. }
    destruct H2 as (Ht & Hf & He & Hho).
    destruct (redraw_frame s2) as (Rt & _ & _ & Rh & _ & Rf & Re).
    cbv zeta. destruct (Nat.ltb 0 _).
    - apply (tidy_restart s (redrawLines s2) (λ u, u));
        [congruence | congruence | congruence | congruence
        | exact between_nothing | exact Htidy].
    - destruct (resetFade_fade (redrawLines s2)) as (Ct & _ & _ & Ch & _).
      apply (tidy_cancel s); [| congruence | exact Htidy].
      rewrite Ct. apply cancel_both_frame; congruence. }
  destruct (String.eqb (toUpperCase key) "ENTER"); [| exact Htidy].
  apply (tidy_cancel s); [reflexivity | | exact Htidy].
  unfold confirmTyping. destruct (fadeTimeout s), (exportTimeout s); reflexivity.
Qed.

Lemma fire_handles t rest s :
  isHovering s = false →
  fadeTimeout (fire t rest s) = fadeTimeout s ∧
  exportTimeout (fire t rest s) =
    match cb t with CbFade => Some (nextTimerId s) | _ => exportTimeout s end.
Proof.
  intros Hh. unfold fire. destruct (cb t); cbn [runCallback].
  - set (s1 := with_now _ _).
    destruct (redraw_frame (calculateKeyPositions s1)) as (_ & _ & _ & _ & _ & -> & ->).
    destruct (calculate_frame s1) as (_ & _ & _ & _ & _ & -> & ->).
    split; reflexivity.
  - unfold fadeFired. cbn. rewrite Hh. split; reflexivity.
  - unfold revealFired. cbn. destruct (negb _ && _)%bool; split; reflexivity.
Qed.

Lemma fire_tidy t l1 l2 s :
  timers s = l1 ++ t :: l2 → fadeTidy s → fadeTidy (fire t (l1 ++ l2) s).
Proof.
  intros Hts Htidy. pose proof Htidy as (Hh & Htr & Hlen).
  destruct (fire_handles t (l1 ++ l2) s Hh) as (Ff & Fe).
  destruct (cb t) eqn:Hcb.
  - destruct (fire_redraw t (l1 ++ l2) s Hcb) as (Ft & _ & _ & Fh & _).
    apply (tidy_frame s); try congruence.
    + intros u. rewrite Ft, Hts, !in_app_iff. cbn. tauto.
    + rewrite Ft, Hts. now apply fadeView_drop_redraw.
  - destruct (fire_fade t (l1 ++ l2) s Hcb Hh) as (Ft & _ & _ & Fh & _).
    assert (Hrest : fadeView (l1 ++ l2) = []).
    { rewrite Hts, fadeView_app, fadeView_cons in Hlen. unfold isFadeKind in Hlen.
      rewrite Hcb, !length_app in Hlen. cbn in Hlen. rewrite fadeView_app.
      destruct (fadeView l1), (fadeView l2); cbn in *; try lia. reflexivity. }
    apply tidy_intro; [exact Fh | | rewrite Ft, fadeView_app, Hrest; cbn; lia].
    intros u Hin Hk. rewrite Ft in Hin. apply in_app_or in Hin as [Hin | [<- | []]].
    + rewrite (fadeView_nil_inv _ u Hrest Hin) in Hk. discriminate.
    + unfold tracked. cbn [cb tid]. apply bool_decide_eq_true. exact Fe.
  - assert (Hrest : fadeView (l1 ++ l2) = []).
    { rewrite Hts, fadeView_app, fadeView_cons in Hlen. unfold isFadeKind in Hlen.
      rewrite Hcb, !length_app in Hlen. cbn in Hlen. rewrite fadeView_app.
      destruct (fadeView l1), (fadeView l2); cbn in *; try lia. reflexivity. }
    apply tidy_no_fade.
    + unfold fire. rewrite Hcb. cbn [runCallback]. unfold revealFired.
      destruct (negb _ && _)%bool; exact Hh.
    + unfold fire. rewrite Hcb. cbn [runCallback]. rewrite revealFired_timers. exact Hrest.
Qed.

Lemma runTimers_tidy target fuel : ∀ s, fadeTidy s → fadeTidy (runTimers fuel target s).
Proof.
  induction fuel as [|fuel IH]; intros s Htidy; cbn [runTimers].
  - apply (tidy_same_timers s); [reflexivity .. | exact Htidy].
  - destruct (popDue target (timers s)) as [[t rest]|] eqn:E.
    + destruct (popDue_Some _ _ _ _ E) as (_ & l1 & l2 & Hts & -> & _).
      apply IH, (fire_tidy t l1 l2 s Hts Htidy).
    + apply (tidy_same_timers s); [reflexivity .. | exact Htidy].
Qed.

Lemma handle_tidy e s : noHoverEvent e = true → fadeTidy s → fadeTidy (handle e s).
Proof.
  intros He Htidy. destruct e; cbn [handle]; try discriminate.
  - now apply handleKeyPress_tidy.
  - destruct (inLayout letter); [| exact Htidy].
    apply (tidy_restart s
             (with_typedSequence (typedSequence s ++ [letter])
                (with_currentText (currentText s +:+ toLowerCase letter) s))
             (λ u, snd (setTimeout CbRedraw 10 u)));
      try reflexivity; [exact between_redraw | exact Htidy].
  - destruct (showExportButtons s); [| exact Htidy]. unfold exportAsSVG.
    destruct (Nat.ltb _ 2); [exact Htidy |].
    apply (tidy_same_timers s); [reflexivity .. | exact Htidy].
  - destruct (showExportButtons s); [| exact Htidy]. unfold exportAsPNG.
    destruct (canvas s); [| exact Htidy].
    apply (tidy_same_timers s); [reflexivity .. | exact Htidy].
  - apply (tidy_same_timers s); [reflexivity .. | exact Htidy].
  - pose proof Htidy as (Hh & _ & Hlen).
    assert (Ht : timers (updateSettings (with_settings st s))
                 = timers s ++ [{| tid := nextTimerId s; due := now s + 10; cb := CbRedraw |}])
      by reflexivity.
    apply tidy_intro; [exact Hh | |].
    + intros t Hin Hk. rewrite Ht in Hin. apply in_app_or in Hin as [Hin | [<- | []]].
      * rewrite (tracked_frame s (updateSettings (with_settings st s)) t eq_refl eq_refl).
        apply (tidy_tracked s t Htidy Hin).
      * discriminate.
    + rewrite Ht, fadeView_app. cbn. now rewrite app_nil_r.
  - unfold onMount. destruct (canvas s); [| exact Htidy].
    destruct has2d.
    + destruct (calculate_frame (sizeCanvas w h s)) as (Ct & _ & _ & Ch & _ & Cf & Ce).
      apply (tidy_same_timers s); try assumption.
    + apply (tidy_same_timers s); [reflexivity .. | exact Htidy].
  - unfold handleResize. destruct (canvas s), (ctx s); try exact Htidy.
    destruct (redraw_frame (calculateKeyPositions (sizeCanvas w h s)))
      as (Rt & _ & _ & Rh & _ & Rf & Re).
    destruct (calculate_frame (sizeCanvas w h s)) as (Ct & _ & _ & Ch & _ & Cf & Ce).
    apply (tidy_same_timers s);
      [now rewrite Rt, Ct | now rewrite Rf, Cf | now rewrite Re, Ce | now rewrite Rh, Ch
      | exact Htidy].
  - apply (tidy_same_timers s); [reflexivity .. | exact Htidy].
  - apply runTimers_tidy, Htidy.
  - apply (tidy_cancel s); [apply clearCanvas_timers | | exact Htidy].
    destruct s as [cv c sq tx kv op sh st ft et ho se kp nw ts nx dm dl].
    unfold clearCanvas. destruct ft, et, c, cv; reflexivity.
Qed.

(** Every page reached from the initial one without pointer events meets the
    hypotheses of the fade schedule. *)
Lemma replay_tidy (evs : list Event) (cv : option Canvas)
    (layout : option (list (string * DOMRect))) :
  forallb noHoverEvent evs = true →
  isHovering (replay evs (initial cv layout)) = false ∧
  timersTracked (replay evs (initial cv layout)) = true.
Proof.
  intros Hevs.
  assert (H : ∀ s, fadeTidy s → fadeTidy (replay evs s)).
  { induction evs as [|e evs IH]; intros s Hs; [exact Hs |].
    cbn [forallb] in Hevs. apply andb_prop in Hevs as [He Hevs].
    apply (IH Hevs (handle e s)), handle_tidy; assumption. }
  destruct (H (initial cv layout)) as (Hh & Htr & _).
  - apply tidy_no_fade; reflexivity.
  - split; assumption.
Qed.

(** Pointer events can leave a fade callback that no handle refers to:
    [handleMouseLeave] starts a countdown without cancelling the one started
    by a key typed while hovering.  The next key press then cancels only the
    newer one, and the older one fades the keyboard 500 ms later. *)
Example untracked_fade_fires_early :
  isHovering (replay hoverThenType (initial None None)) = false ∧
  timersTracked (replay [MouseEnter; KeyDown "a"; Elapse 1000; MouseLeave; Elapse 500]
                   (initial None None)) = false ∧
  fadeState (elapse 500 (replay hoverThenType (initial None None))) = Some Fading.
Proof. repeat split; vm_compute; reflexivity. Qed.


(** ** What Enter and clear do to pending timers *)

(** C8, as the code has it. Enter, pressed in any state and after any delay,
    leaves [typedSequence] and [currentText] alone, sets the opacity to 0.1
    and shows the export controls at once, and cancels the timers held in
    [fadeTimeout] and [exportTimeout]: no timer held in a handle is pending
    afterwards, and on a page whose pending fade and reveal callbacks are the
    ones held in the handles no fade or reveal callback is pending afterwards.
    The deferred redraw callbacks, which have no handle, stay pending. *)
Theorem confirm_forces_reveal (s : State) (dt : Z) :
  typedSequence (handleKeyPress "Enter" (elapse dt s)) = typedSequence s ∧
  currentText (handleKeyPress "Enter" (elapse dt s)) = currentText s ∧
  keyboardOpacity (handleKeyPress "Enter" (elapse dt s)) = (1 # 10)%Q ∧
  showExportButtons (handleKeyPress "Enter" (elapse dt s)) = true ∧
  fadeState (handleKeyPress "Enter" (elapse dt s)) = Some Confirmed ∧
  (∀ t : Timer,
     t ∈ timers (handleKeyPress "Enter" (elapse dt s)) →
     fadeTimeout (elapse dt s) ≠ Some (tid t) ∧ exportTimeout (elapse dt s) ≠ Some (tid t)) ∧
  (timersTracked (elapse dt s) = true →
   fadeView (timers (handleKeyPress "Enter" (elapse dt s))) = []) ∧
  (∀ t : Timer,
     cb t = CbRedraw →
     fadeTimeout (elapse dt s) ≠ Some (tid t) → exportTimeout (elapse dt s) ≠ Some (tid t) →
     (t ∈ timers (handleKeyPress "Enter" (elapse dt s)) ↔ t ∈ timers (elapse dt s))).
Proof.
  rewrite handleKeyPress_enter.
  destruct (confirmTyping_typed (elapse dt s)) as [-> ->].
  destruct (elapse_typed dt s) as [-> ->].
  do 5 (split; [reflexivity |]).
  rewrite confirmTyping_timers. split; [| split].
  - intros t Ht. apply cancel_both_elem in Ht. tauto.
  - apply cancel_both_view.
  - intros t _ Hf He. rewrite cancel_both_elem. tauto.
Qed.

Lemma confirm_forces_reveal_witness :
  keyboardOpacity (handleKeyPress "Enter" (elapse 500 oneLetterPage)) = (1 # 10)%Q ∧
  showExportButtons (handleKeyPress "Enter" (elapse 500 oneLetterPage)) = true ∧
  fadeView (timers (handleKeyPress "Enter" (elapse 500 oneLetterPage))) = [].
Proof.
  destruct (confirm_forces_reveal oneLetterPage 500) as (_ & _ & Ho & He & _ & _ & Hv & _).
  split; [exact Ho |]. split; [exact He |]. apply Hv. reflexivity.
Defined.

(** C8 as worded fails: right after a letter the deferred redraw is pending,
    and Enter does not cancel it. *)
Lemma confirm_keeps_redraw_timer :
  timers (handleKeyPress "Enter" oneLetterPage)
    = [{| tid := 1; due := 10; cb := CbRedraw |}] ∧
  timers (handleKeyPress "Enter" oneLetterPage) ≠ [].
Proof. split; [vm_compute; reflexivity | vm_compute; discriminate]. Qed.

(** C7, as the code has it. [clearCanvas] is idempotent and, from every
    state, empties [typedSequence] and [currentText], sets the opacity to 1
    and hides the export controls (their initial values), and cancels the
    timers held in [fadeTimeout] and [exportTimeout]: no timer held in a handle
    is pending afterwards, and on a page whose pending fade and reveal
    callbacks are the ones held in the handles no fade or reveal callback is
    pending afterwards.  The deferred redraw callbacks, which have no handle,
    stay pending. *)
Theorem clear_resets (s : State) (cv : option Canvas)
    (layout : option (list (string * DOMRect))) :
  clearCanvas (clearCanvas s) = clearCanvas s ∧
  typedSequence (clearCanvas s) = typedSequence (initial cv layout) ∧
  currentText (clearCanvas s) = currentText (initial cv layout) ∧
  keyboardOpacity (clearCanvas s) = keyboardOpacity (initial cv layout) ∧
  showExportButtons (clearCanvas s) = showExportButtons (initial cv layout) ∧
  fadeState (clearCanvas s) = Some Active ∧
  (∀ t : Timer,
     t ∈ timers (clearCanvas s) →
     fadeTimeout s ≠ Some (tid t) ∧ exportTimeout s ≠ Some (tid t)) ∧
  (timersTracked s = true → fadeView (timers (clearCanvas s)) = []) ∧
  (∀ t : Timer,
     cb t = CbRedraw →
     fadeTimeout s ≠ Some (tid t) → exportTimeout s ≠ Some (tid t) →
     (t ∈ timers (clearCanvas s) ↔ t ∈ timers s)).
Proof.
  split; [apply clearCanvas_idempotent |].
  destruct (clearCanvas_typed s) as [Hs Ht].
  destruct (clearCanvas_fade s) as [Ho He].
  do 4 (split; [assumption |]).
  split; [unfold fadeState; now rewrite Ho, He |].
  rewrite clearCanvas_timers. split; [| split].
  - intros t Hin. apply cancel_both_elem in Hin. tauto.
  - apply cancel_both_view.
  - intros t _ Hf Hx. rewrite cancel_both_elem. tauto.
Qed.

Lemma clear_resets_witness :
  clearCanvas (clearCanvas oneLetterPage) = clearCanvas oneLetterPage ∧
  typedSequence (clearCanvas oneLetterPage) = [] ∧
  currentText (clearCanvas oneLetterPage) = "" ∧
  fadeView (timers (clearCanvas oneLetterPage)) = [].
Proof.
  destruct (clear_resets oneLetterPage None None) as (Hi & Hs & Ht & _ & _ & _ & _ & Hv & _).
  split; [exact Hi |]. split; [exact Hs |]. split; [exact Ht |]. apply Hv. reflexivity.
Defined.

(** C7 as worded fails: right after a letter the deferred redraw is pending,
    and [clearCanvas] does not cancel it. *)
Lemma clear_keeps_redraw_timer :
  timers (clearCanvas oneLetterPage) = [{| tid := 1; due := 10; cb := CbRedraw |}] ∧
  timers (clearCanvas oneLetterPage) ≠ [].
Proof. split; [vm_compute; reflexivity | vm_compute; discriminate]. Qed.

(** * Further properties of the page *)

(** ** Keys *)

Lemma upper_ascii_idem c : upper_ascii (upper_ascii c) = upper_ascii c.
Proof. ascii_cases c. Qed.

Lemma upper_of_lower_any c : upper_ascii (lower_ascii c) = upper_ascii c.
Proof. ascii_cases c. Qed.

Lemma toUpperCase_idem key : toUpperCase (toUpperCase key) = toUpperCase key.
Proof.
  induction key as [|c key IH]; [reflexivity |].
  cbn [toUpperCase]. now rewrite upper_ascii_idem, IH.
Qed.

Lemma toUpperCase_lower key : toUpperCase (toLowerCase key) = toUpperCase key.
Proof.
  induction key as [|c key IH]; [reflexivity |].
  cbn [toUpperCase toLowerCase]. now rewrite upper_of_lower_any, IH.
Qed.

Lemma key_case_insensitive_aux (key : string) (s : State) :
  handleKeyPress (toUpperCase key) s = handleKeyPress key s ∧
  handleKeyPress (toLowerCase key) s = handleKeyPress key s.
Proof.
  unfold handleKeyPress. now rewrite toUpperCase_idem, toUpperCase_lower.
Qed.

(** X1. Key handling does not depend on the case of the key name: the key,
    its upper case and its lower case are handled alike, from every state. *)
Theorem key_case_insensitive (key : string) (s : State) :
  handleKeyPress (toUpperCase key) s = handleKeyPress key s ∧
  handleKeyPress (toLowerCase key) s = handleKeyPress key s.
Proof.
  unfold handleKeyPress. split.
  - now rewrite toUpperCase_idem.
  - now rewrite toUpperCase_lower.
Qed.

Lemma layout_letter_upper letter :
  inLayout letter = true → toUpperCase letter = letter ∧ isLetterKey letter = true.
Proof.
  intros H. destruct (inLayout_inv letter H) as (c & -> & Hc).
  cbn [toUpperCase isLetterKey]. split.
  - f_equal. revert Hc. ascii_cases c.
  - unfold is_letter. now rewrite Hc.
Qed.

(** X2. Clicking a key of the on-screen keyboard does exactly what pressing
    that letter on the physical keyboard does, in either case. *)
Theorem click_is_keypress (letter : string) (s : State) :
  inLayout letter = true →
  handle (ClickKey letter) s = handle (KeyDown letter) s ∧
  handle (ClickKey letter) s = handle (KeyDown (toLowerCase letter)) s.
Proof.
  intros H. destruct (layout_letter_upper letter H) as [Hup Hkey].
  cbn [handle]. rewrite H.
  rewrite (proj2 (key_case_insensitive_aux letter s)).
  rewrite (handleKeyPress_letter letter s Hkey), Hup. split; reflexivity.
Qed.

Lemma click_is_keypress_witness :
  handle (ClickKey "Q") (initial None None) = handle (KeyDown "Q") (initial None None) ∧
  handle (ClickKey "Q") (initial None None) = handle (KeyDown "q") (initial None None).
Proof. apply (click_is_keypress "Q" (initial None None)). reflexivity. Defined.

(** ** The alphabet of the text and of the sequence *)

Lemma lower_letter_in_layout c :
  is_lower c = true → inLayout (String (upper_ascii c) EmptyString) = true.
Proof. ascii_cases c. Qed.

Lemma lettersOf_in_layout text :
  lowerOrSpace text = true → forallb inLayout (lettersOf text) = true.
Proof.
  induction text as [|c text IH]; [reflexivity |].
  cbn [lowerOrSpace lettersOf]. intros H. apply andb_prop in H as [Hc Ht].
  destruct (Ascii.eqb c " ") eqn:Hsp; [apply IH, Ht |].
  rewrite orb_false_r in Hc. cbn [forallb].
  now rewrite (lower_letter_in_layout c Hc), (IH Ht).
Qed.

(** X3. After any replay of events from the initial page, the display text
    holds only lower-case letters and spaces, and every entry of the typed
    sequence is one of the 26 letters of the keyboard layout. *)
Theorem text_and_sequence_alphabet (evs : list Event) (cv : option Canvas)
    (layout : option (list (string * DOMRect))) :
  lowerOrSpace (currentText (replay evs (initial cv layout))) = true ∧
  forallb inLayout (typedSequence (replay evs (initial cv layout))) = true.
Proof.
  assert (H : lowerOrSpace (currentText (replay evs (initial cv layout))) = true ∧
              typedSequence (replay evs (initial cv layout))
                = lettersOf (currentText (replay evs (initial cv layout)))).
  { apply (replay_invariant
             (λ s, lowerOrSpace (currentText s) = true ∧
                   typedSequence s = lettersOf (currentText s))
             mirror_step evs (initial cv layout)).
    split; reflexivity. }
  destruct H as [Hlow Hseq]. split; [exact Hlow |].
  rewrite Hseq. apply lettersOf_in_layout, Hlow.
Qed.

(** ** Backspace *)




(** ** The key position registry *)

Lemma calculateKeyPositions_fold s keys :
  dom s = Some keys →
  calculateKeyPositions s = with_keyPositions (foldl registerKey (keyPositions s) keys) s.
Proof. intros H. unfold calculateKeyPositions. now rewrite H. Qed.

Lemma registerKey_lookup (m : gmap string KeyPosition) k l :
  l ≠ "" →
  registerKey m k !! l = if String.eqb (fst k) l then Some (centre (snd k)) else m !! l.
Proof.
  intros Hl. destruct k as [a r]. unfold registerKey. cbn [fst snd].
  destruct a as [|c a].
  - destruct (String.eqb_spec "" l); [congruence | reflexivity].
  - destruct (String.eqb_spec (String c a) l) as [<- | Hne].
    + apply lookup_insert_eq.
    + now apply lookup_insert_ne.
Qed.

Lemma registerKey_empty (m : gmap string KeyPosition) k : registerKey m k !! "" = m !! "".
Proof.
  destruct k as [a r]. unfold registerKey. cbn [fst snd].
  destruct a; [reflexivity |]. now apply lookup_insert_ne.
Qed.

Lemma register_all_lookup keys : ∀ (m : gmap string KeyPosition) l,
  l ≠ "" →
  foldl registerKey m keys !! l =
    match lastRect l keys with
    | Some r => Some (centre r)
    | None => m !! l
    end.
Proof.
  induction keys as [|k keys IH]; intros m l Hl; [reflexivity |].
  cbn [foldl lastRect]. rewrite (IH _ l Hl).
  destruct (lastRect l keys); [reflexivity |].
  rewrite (registerKey_lookup m k l Hl). now destruct (String.eqb (fst k) l).
Qed.

Lemma register_all_empty keys : ∀ (m : gmap string KeyPosition),
  foldl registerKey m keys !! "" = m !! "".
Proof.
  induction keys as [|k keys IH]; intros m; [reflexivity |].
  cbn [foldl]. now rewrite IH, registerKey_empty.
Qed.

(** X5. Recalculating the key positions: without a rendered keyboard nothing
    changes; with one, a letter carried by some rendered key maps to the
    centre of the last such key, and every other letter keeps the entry it
    had (stale entries are never removed). *)
Theorem registry_after_recalculation (s : State) :
  match dom s with
  | None => calculateKeyPositions s = s
  | Some keys =>
      ∀ l, keyPositions (calculateKeyPositions s) !! l =
           match (if String.eqb l "" then None else lastRect l keys) with
           | Some r => Some (centre r)
           | None => keyPositions s !! l
           end
  end.
Proof.
  destruct (dom s) as [keys|] eqn:Hdom.
  - intros l. rewrite (calculateKeyPositions_fold s keys Hdom).
    cbn [keyPositions with_keyPositions].
    destruct (String.eqb_spec l "") as [-> | Hl].
    + apply register_all_empty.
    + now apply register_all_lookup.
  - unfold calculateKeyPositions. now rewrite Hdom.
Qed.

Lemma register_all_idem keys (m : gmap string KeyPosition) :
  foldl registerKey (foldl registerKey m keys) keys = foldl registerKey m keys.
Proof.
  apply map_eq. intros l. destruct (String.eqb_spec l "") as [-> | Hl].
  - now rewrite !register_all_empty.
  - rewrite (register_all_lookup keys (foldl registerKey m keys) l Hl).
    rewrite (register_all_lookup keys m l Hl).
    now destruct (lastRect l keys).
Qed.

(** X6. Recalculating the key positions twice in a row gives the same page
    as recalculating once. *)
Theorem recalculation_idempotent (s : State) :
  calculateKeyPositions (calculateKeyPositions s) = calculateKeyPositions s.
Proof.
  destruct (dom s) as [keys|] eqn:Hdom.
  - rewrite (calculateKeyPositions_fold s keys Hdom).
    rewrite (calculateKeyPositions_fold _ keys) by exact Hdom.
    unfold with_keyPositions at 1 3. cbn [keyPositions with_keyPositions
      canvas ctx typedSequence currentText keyboardVisible keyboardOpacity
      showExportButtons showSettings fadeTimeout exportTimeout isHovering settings
      now timers nextTimerId dom downloads].
    now rewrite register_all_idem.
  - unfold calculateKeyPositions at 1.
    assert (Hs : calculateKeyPositions s = s)
      by (unfold calculateKeyPositions; now rewrite Hdom).
    rewrite Hs, Hdom. reflexivity.
Qed.

Lemma lastRect_rendered l keys :
  existsb (String.eqb l) (map fst keys) = true → is_Some (lastRect l keys).
Proof.
  induction keys as [|k keys IH]; [discriminate |].
  cbn [map existsb lastRect]. intros H.
  destruct (lastRect l keys) as [r|]; [eexists; reflexivity |].
  apply orb_prop in H as [H | H].
  - rewrite String.eqb_sym, H. eexists; reflexivity.
  - destruct (IH H) as [r Hr]. discriminate.
Qed.

Lemma layout_letter_rendered keys l :
  rendersAllKeys keys = true → inLayout l = true →
  l ≠ "" ∧ is_Some (lastRect l keys).
Proof.
  intros Hall Hl. split.
  - destruct (inLayout_inv l Hl) as (c & -> & _). discriminate.
  - apply lastRect_rendered. unfold rendersAllKeys in Hall.
    rewrite forallb_forall in Hall. apply Hall.
    unfold inLayout in Hl. apply existsb_exists in Hl as (k & Hin & Heq).
    apply String.eqb_eq in Heq. now subst k.
Qed.

Lemma polyline_short pos (sq : list string) :
  (length sq < 2)%nat → polyline sq pos = [].
Proof.
  intros H. unfold polyline.
  destruct sq as [|a [|b sq]]; cbn [length] in H; try lia; reflexivity.
Qed.

Lemma alphabet_invariant (evs : list Event) (cv : option Canvas)
    (layout : option (list (string * DOMRect))) :
  forallb inLayout (typedSequence (replay evs (initial cv layout))) = true.
Proof.
  assert (H : lowerOrSpace (currentText (replay evs (initial cv layout))) = true ∧
              typedSequence (replay evs (initial cv layout))
                = lettersOf (currentText (replay evs (initial cv layout)))).
  { apply (replay_invariant
             (λ s, lowerOrSpace (currentText s) = true ∧
                   typedSequence s = lettersOf (currentText s))
             mirror_step evs (initial cv layout)).
    split; reflexivity. }
  destruct H as [Hlow ->]. apply lettersOf_in_layout, Hlow.
Qed.

(** X7. On a page reached by any replay of events whose keyboard renders a
    key for each of the 26 letters, recalculating the positions resolves every
    typed letter; the path of the loop is then the one the specification
    words: a move to the first letter and a line to each later one. *)
Theorem typed_letters_resolved (evs : list Event) (cv : option Canvas)
    (layout : option (list (string * DOMRect))) (keys : list (string * DOMRect)) :
  dom (replay evs (initial cv layout)) = Some keys →
  rendersAllKeys keys = true →
  Forall (λ k, is_Some (keyPositions (calculateKeyPositions (replay evs (initial cv layout))) !! k))
         (typedSequence (replay evs (initial cv layout))) ∧
  polyline (typedSequence (replay evs (initial cv layout)))
           (keyPositions (calculateKeyPositions (replay evs (initial cv layout))))
  = if Nat.leb 2 (length (typedSequence (replay evs (initial cv layout))))
    then specPath (typedSequence (replay evs (initial cv layout)))
                  (keyPositions (calculateKeyPositions (replay evs (initial cv layout))))
    else [].
Proof.
  intros Hdom Hall. set (s := replay evs (initial cv layout)) in *.
  assert (Hres : Forall (λ k, is_Some (keyPositions (calculateKeyPositions s) !! k))
                        (typedSequence s)).
  { apply List.Forall_forall. intros k Hin.
    pose proof (alphabet_invariant evs cv layout) as Halpha. fold s in Halpha.
    rewrite forallb_forall in Halpha.
    destruct (layout_letter_rendered keys k Hall (Halpha k Hin)) as [Hne [r Hr]].
    rewrite (calculateKeyPositions_fold s keys Hdom). cbn [keyPositions with_keyPositions].
    rewrite (register_all_lookup keys _ k Hne), Hr. eexists; reflexivity. }
  split; [exact Hres |].
  destruct (Nat.leb_spec 2 (length (typedSequence s))) as [Hge | Hlt].
  - now apply polyline_all_resolved.
  - now apply polyline_short.
Qed.

Lemma typed_letters_resolved_witness :
  Forall (λ k, is_Some (keyPositions (calculateKeyPositions
                          (replay (KeyDown <$> ["h"; "i"]) (initial None (Some fullLayout)))) !! k))
         (typedSequence (replay (KeyDown <$> ["h"; "i"]) (initial None (Some fullLayout)))).
Proof.
  apply (typed_letters_resolved (KeyDown <$> ["h"; "i"]) None (Some fullLayout) fullLayout);
    reflexivity.
Defined.

(** ** Redraw *)

Lemma redrawLines_short s c cv :
  ctx s = Some c → canvas s = Some cv → (length (typedSequence s) < 2)%nat →
  canvas (redrawLines s) = Some (clearRect cv).
Proof.
  intros Hc Hcv Hlen. unfold redrawLines. rewrite Hc, Hcv.
  destruct (typedSequence s) as [|a [|b sq]]; cbn [length] in Hlen; try lia; reflexivity.
Qed.

(** X8. With a canvas and a context but fewer than two typed letters, redraw
    only clears: the canvas keeps its size and holds no stroke, whatever it
    held before, and nothing is drawn for a single letter. *)
Theorem redraw_short_sequence_blank (s : State) (c : Context2D) (cv : Canvas) :
  ctx s = Some c →
  canvas s = Some cv →
  (length (typedSequence s) < 2)%nat →
  canvas (redrawLines s) = Some {| cwidth := cwidth cv; cheight := cheight cv; painted := [] |} ∧
  strokedPath (redrawLines s) = None.
Proof.
  intros Hc Hcv Hlen. pose proof (redrawLines_short s c cv Hc Hcv Hlen) as H.
  split; [exact H |]. unfold strokedPath. now rewrite H.
Qed.

Lemma redraw_short_sequence_blank_witness :
  strokedPath (redrawLines (replay [Mount true 800 600; KeyDown "a"]
                              (initial (Some blankCanvas) None))) = None.
Proof.
  edestruct (redraw_short_sequence_blank
               (replay [Mount true 800 600; KeyDown "a"] (initial (Some blankCanvas) None)))
    as [_ H].
  - vm_compute. reflexivity.
  - vm_compute. reflexivity.
  - vm_compute. lia.
  - exact H.
Defined.

Lemma applyLineStyle_idem ls c p :
  applyLineStyle ls (withPath p (applyLineStyle ls c)) = withPath p (applyLineStyle ls c).
Proof. unfold applyLineStyle, withPath. cbn. destruct (glow ls); reflexivity. Qed.

Lemma withPath_idem p c : withPath p (withPath p c) = withPath p c.
Proof. reflexivity. Qed.

Lemma redrawLines_idem s : redrawLines (redrawLines s) = redrawLines s.
Proof.
  destruct s as [cv c sq tx kv op sh st ft et ho se kp nw ts nx dm dl].
  unfold redrawLines.
  cbv [canvas ctx typedSequence settings keyPositions].
  destruct c as [c|]; [| reflexivity]. destruct cv as [cv|]; [| reflexivity].
  destruct (Nat.eqb (length sq) 0) eqn:H0.
  - cbv [with_canvas canvas ctx typedSequence currentText keyboardVisible keyboardOpacity
         showExportButtons showSettings fadeTimeout exportTimeout isHovering settings
         keyPositions now timers nextTimerId dom downloads].
    rewrite H0. reflexivity.
  - destruct (Nat.leb 2 (length sq)) eqn:H2.
    + cbv [with_canvas with_ctx canvas ctx typedSequence currentText keyboardVisible
           keyboardOpacity showExportButtons showSettings fadeTimeout exportTimeout
           isHovering settings keyPositions now timers nextTimerId dom downloads].
      rewrite H0, H2.
      rewrite (applyLineStyle_idem (lines se) c (polyline sq kp)).
      reflexivity.
    + cbv [with_canvas with_ctx canvas ctx typedSequence currentText keyboardVisible
           keyboardOpacity showExportButtons showSettings fadeTimeout exportTimeout
           isHovering settings keyPositions now timers nextTimerId dom downloads].
      rewrite H0, H2.
      replace (applyLineStyle (lines se) (applyLineStyle (lines se) c))
        with (applyLineStyle (lines se) c)
        by (unfold applyLineStyle; cbn; destruct (glow (lines se)); reflexivity).
      reflexivity.
Qed.

(** X9. Redraw is idempotent: a second redraw in a row leaves the page,
    canvas content and context included, exactly as the first left it; strokes
    never pile up. *)
Theorem redraw_idempotent (s : State) :
  redrawLines (redrawLines s) = redrawLines s ∧
  match canvas (redrawLines (redrawLines s)), ctx s with
  | Some cv, Some _ => (length (painted cv) <= 1)%nat
  | _, _ => True
  end.
Proof.
  split; [apply redrawLines_idem |].
  rewrite redrawLines_idem. unfold redrawLines.
  destruct (ctx s) as [c|]; [| now destruct (canvas s)].
  destruct (canvas s) as [cv|] eqn:Hcv; [| now rewrite Hcv].
  destruct (Nat.eqb _ 0); [cbn; lia |].
  destruct (Nat.leb 2 _); cbn; lia.
Qed.

(** ** The deferred refresh *)

Lemma with_keyPositions_same s : with_keyPositions (keyPositions s) s = s.
Proof. now destruct s. Qed.

Lemma redrawLines_inputs s :
  drawInputs (redrawLines s) = drawInputs s ∧ keyPositions (redrawLines s) = keyPositions s.
Proof.
  unfold redrawLines, drawInputs. destruct (ctx s), (canvas s); try (split; reflexivity).
  destruct (Nat.eqb _ 0); [split; reflexivity |].
  destruct (Nat.leb 2 _); split; reflexivity.
Qed.

Lemma calculate_inputs s :
  drawInputs (calculateKeyPositions s) = drawInputs s ∧
  canvas (calculateKeyPositions s) = canvas s ∧ ctx (calculateKeyPositions s) = ctx s.
Proof.
  destruct s as [cv c sq tx kv op sh st ft et ho se kp nw ts nx dm dl].
  unfold calculateKeyPositions, drawInputs. cbv [dom].
  destruct dm; repeat split; reflexivity.
Qed.

Lemma calculate_after_refresh s : calculateKeyPositions (refresh s) = refresh s.
Proof.
  unfold refresh. set (x := redrawLines (calculateKeyPositions s)).
  destruct (redrawLines_inputs (calculateKeyPositions s)) as [Hin Hkp].
  destruct (calculate_inputs s) as [Hin' _].
  assert (Hdom : dom x = dom s) by (unfold drawInputs in Hin, Hin'; subst x; congruence).
  destruct (dom s) as [keys|] eqn:Hd.
  - assert (Hx : keyPositions x = foldl registerKey (keyPositions s) keys).
    { subst x. rewrite Hkp, (calculateKeyPositions_fold s keys Hd). reflexivity. }
    rewrite (calculateKeyPositions_fold x keys Hdom), Hx, register_all_idem, <- Hx.
    apply with_keyPositions_same.
  - unfold calculateKeyPositions. now rewrite Hdom.
Qed.

Lemma refresh_idem s : refresh (refresh s) = refresh s.
Proof.
  unfold refresh at 1. rewrite calculate_after_refresh.
  unfold refresh. apply redrawLines_idem.
Qed.

(** A refresh reads only the drawing and its inputs. *)
Lemma refresh_ext u1 u2 :
  drawing u1 = drawing u2 → drawInputs u1 = drawInputs u2 →
  drawing (refresh u1) = drawing (refresh u2) ∧ drawInputs (refresh u1) = drawInputs (refresh u2).
Proof.
  destruct u1 as [cv1 c1 sq1 tx1 kv1 op1 sh1 st1 ft1 et1 ho1 se1 kp1 nw1 ts1 nx1 dm1 dl1].
  destruct u2 as [cv2 c2 sq2 tx2 kv2 op2 sh2 st2 ft2 et2 ho2 se2 kp2 nw2 ts2 nx2 dm2 dl2].
  unfold drawing, drawInputs. cbn [canvas ctx keyPositions typedSequence settings dom].
  intros [= -> -> ->] [= -> -> ->].
  unfold refresh, calculateKeyPositions, redrawLines.
  cbv [with_keyPositions with_canvas with_ctx canvas ctx typedSequence currentText
       keyboardVisible keyboardOpacity showExportButtons showSettings fadeTimeout
       exportTimeout isHovering settings keyPositions now timers nextTimerId dom downloads].
  destruct dm2, c2, cv2;
    cbv [with_keyPositions with_canvas with_ctx canvas ctx typedSequence currentText
       keyboardVisible keyboardOpacity showExportButtons showSettings fadeTimeout
       exportTimeout isHovering settings keyPositions now timers nextTimerId dom downloads];
    try (split; reflexivity);
    destruct (Nat.eqb (length sq2) 0); try (split; reflexivity);
    destruct (Nat.leb 2 (length sq2)); split; reflexivity.
Qed.

Lemma fadeFired_draw s : drawing (fadeFired s) = drawing s ∧ drawInputs (fadeFired s) = drawInputs s.
Proof. unfold fadeFired. destruct (isHovering s); split; reflexivity. Qed.

Lemma revealFired_draw s :
  drawing (revealFired s) = drawing s ∧ drawInputs (revealFired s) = drawInputs s.
Proof. unfold revealFired. destruct (negb _ && _)%bool; split; reflexivity. Qed.

Lemma refresh_inputs s : drawInputs (refresh s) = drawInputs s.
Proof.
  unfold refresh. destruct (redrawLines_inputs (calculateKeyPositions s)) as [-> _].
  apply calculate_inputs.
Qed.

(** What firing a timer does to the drawing. *)
Lemma fire_drawing t rest u :
  drawInputs (fire t rest u) = drawInputs u ∧
  drawing (fire t rest u) = if isFadeKind t then drawing u else drawing (refresh u).
Proof.
  unfold fire, isFadeKind. set (u1 := with_now _ _).
  assert (H1 : drawing u1 = drawing u ∧ drawInputs u1 = drawInputs u) by (split; reflexivity).
  destruct H1 as [Hd Hi]. destruct (cb t); cbn [runCallback].
  - fold (refresh u1). destruct (refresh_ext u1 u Hd Hi) as [-> _].
    split; [| reflexivity]. now rewrite refresh_inputs.
  - destruct (fadeFired_draw u1) as [-> ->]. now split.
  - destruct (revealFired_draw u1) as [-> ->]. now split.
Qed.

Lemma fire_redrawTimers t l1 l2 u :
  timers u = l1 ++ t :: l2 →
  isFadeKind t = true →
  redrawTimers (timers (fire t (l1 ++ l2) u)) = redrawTimers (timers u).
Proof.
  intros Hts Hk. unfold fire, isFadeKind in *.
  assert (Hrest : redrawTimers (l1 ++ l2) = redrawTimers (timers u)).
  { rewrite Hts. unfold redrawTimers. rewrite !List.filter_app. cbn [List.filter].
    unfold isFadeKind. destruct (cb t); [discriminate | reflexivity | reflexivity]. }
  destruct (cb t); [discriminate | |]; cbn [runCallback].
  - rewrite fadeFired_timers. cbn [timers with_now with_timers isHovering].
    unfold redrawTimers in *. rewrite List.filter_app, Hrest.
    destruct (isHovering u); cbn; now rewrite app_nil_r.
  - rewrite revealFired_timers. exact Hrest.
Qed.

Lemma redrawDue_false target ts :
  Forall (λ u, target < due u) ts → redrawDue target ts = false.
Proof.
  induction 1 as [|t ts Ht _ IH]; [reflexivity |].
  cbn [redrawDue existsb]. fold (redrawDue target ts). rewrite IH.
  destruct (Z.leb_spec (due t) target); [lia |]. now rewrite andb_false_r.
Qed.

Lemma redrawDue_filter target ts : redrawDue target (redrawTimers ts) = redrawDue target ts.
Proof.
  induction ts as [|t ts IH]; [reflexivity |].
  unfold redrawTimers in *. cbn [List.filter redrawDue existsb].
  destruct (isFadeKind t) eqn:Hk; cbn [negb andb orb].
  - exact IH.
  - cbn [redrawDue existsb]. rewrite Hk. cbn [negb andb]. unfold redrawDue in IH. now rewrite IH.
Qed.

Lemma redrawDue_true target ts t :
  In t ts → isFadeKind t = false → due t <= target → redrawDue target ts = true.
Proof.
  intros Hin Hk Hdue. unfold redrawDue. apply existsb_exists. exists t.
  split; [exact Hin |]. rewrite Hk. cbn. now apply Z.leb_le.
Qed.

(** While the clock runs, the drawing is that of the page it started from
    until a redraw callback fires, and from then on that of one refresh of that
    page, however many redraws follow. *)
Lemma runTimers_drawing s target fuel : ∀ u,
  (fuelFor (timers u) <= fuel)%nat →
  drawInputs u = drawInputs s →
  (drawing u = drawing s ∧ redrawTimers (timers u) = redrawTimers (timers s)) ∨
  (drawing u = drawing (refresh s) ∧ redrawDue target (timers s) = true) →
  drawInputs (runTimers fuel target u) = drawInputs s ∧
  drawing (runTimers fuel target u)
    = if redrawDue target (timers s) then drawing (refresh s) else drawing s.
Proof.
  assert (Hend : ∀ u, Forall (λ t, target < due t) (timers u) →
            drawInputs u = drawInputs s →
            (drawing u = drawing s ∧ redrawTimers (timers u) = redrawTimers (timers s)) ∨
            (drawing u = drawing (refresh s) ∧ redrawDue target (timers s) = true) →
            drawInputs (with_now (Z.max (now u) target) u) = drawInputs s ∧
            drawing (with_now (Z.max (now u) target) u)
              = if redrawDue target (timers s) then drawing (refresh s) else drawing s).
  { intros u Hall Hin [[Hd Hrt] | [Hd Hdue]]; (split; [exact Hin |]).
    - rewrite <- (redrawDue_filter target (timers s)), <- Hrt, redrawDue_filter.
      rewrite (redrawDue_false target (timers u) Hall). exact Hd.
    - rewrite Hdue. exact Hd. }
  induction fuel as [|fuel IH]; intros u Hfuel Hin Hcase.
  - assert (timers u = []) as Hnil by (apply fuelFor_zero; lia).
    cbn [runTimers]. apply Hend; [rewrite Hnil; constructor | exact Hin | exact Hcase].
  - cbn [runTimers]. destruct (popDue target (timers u)) as [[t rest]|] eqn:E.
    + destruct (popDue_Some _ _ _ _ E) as (Hdue & l1 & l2 & Hts & -> & _).
      destruct (fire_drawing t (l1 ++ l2) u) as [Fin Fd].
      apply IH.
      * pose proof (fire_fuel t l1 l2 u) as Hlt. rewrite <- Hts in Hlt. lia.
      * congruence.
      * destruct (isFadeKind t) eqn:Hk.
        -- destruct Hcase as [[Hd Hrt] | [Hd Hd']]; [left | right].
           ++ split; [congruence |].
              now rewrite (fire_redrawTimers t l1 l2 u Hts Hk).
           ++ split; [congruence | exact Hd'].
        -- right. destruct Hcase as [[Hd Hrt] | [Hd Hd']].
           ++ split.
              ** rewrite Fd. apply (refresh_ext u s Hd Hin).
              ** rewrite <- redrawDue_filter, <- Hrt, redrawDue_filter.
                 apply (redrawDue_true target (timers u) t); [| exact Hk | exact Hdue].
                 rewrite Hts. apply in_elt.
           ++ split; [| exact Hd'].
              rewrite Fd. rewrite <- (refresh_idem s).
              apply (refresh_ext u (refresh s) Hd). now rewrite refresh_inputs.
    + apply Hend; [apply popDue_None, E | exact Hin | exact Hcase].
Qed.

Lemma elapse_drawing dt s :
  drawInputs (elapse dt s) = drawInputs s ∧
  drawing (elapse dt s)
    = if redrawDue (now s + Z.max 0 dt) (timers s) then drawing (refresh s) else drawing s.
Proof.
  apply runTimers_drawing; [reflexivity | reflexivity |]. left. split; reflexivity.
Qed.

Lemma addLetter_timers letter s :
  timers (addLetter letter s) =
    (timers (clearTimeout (exportTimeout s) (clearTimeout (fadeTimeout s) s))
     ++ [{| tid := nextTimerId s; due := now s + 10; cb := CbRedraw |}])
    ++ [{| tid := S (nextTimerId s); due := now s + 2000; cb := CbFade |}].
Proof.
  destruct s as [cv c sq tx kv op sh st ft et ho se kp nw ts nx dm dl].
  unfold addLetter, resetFade, startFadeTimer, setTimeout.
  destruct ft, et; reflexivity.
Qed.

Lemma addLetter_surface letter s :
  ctx (addLetter letter s) = ctx s ∧ canvas (addLetter letter s) = canvas s ∧
  keyPositions (addLetter letter s) = keyPositions s ∧ dom (addLetter letter s) = dom s ∧
  now (addLetter letter s) = now s ∧
  In {| tid := nextTimerId s; due := now s + 10; cb := CbRedraw |} (timers (addLetter letter s)).
Proof.
  do 5 (split; [destruct s as [cv c sq tx kv op sh st ft et ho se kp nw ts nx dm dl];
                unfold addLetter, resetFade, startFadeTimer, setTimeout;
                destruct ft, et; reflexivity |]).
  rewrite addLetter_timers, !in_app_iff. left. right. left. reflexivity.
Qed.

Lemma calculate_keyPositions_ext s1 s2 :
  dom s1 = dom s2 → keyPositions s1 = keyPositions s2 →
  keyPositions (calculateKeyPositions s1) = keyPositions (calculateKeyPositions s2).
Proof.
  intros Hd Hk. unfold calculateKeyPositions. rewrite Hd.
  destruct (dom s2); cbn [keyPositions with_keyPositions]; now rewrite Hk.
Qed.

Lemma drawing_canvas s1 s2 : drawing s1 = drawing s2 → canvas s1 = canvas s2.
Proof. unfold drawing. now intros [= -> _ _]. Qed.

Lemma drawing_keyPositions s1 s2 : drawing s1 = drawing s2 → keyPositions s1 = keyPositions s2.
Proof. unfold drawing. now intros [= _ _ ->]. Qed.

Lemma refresh_stroke s c cv :
  ctx s = Some c → canvas s = Some cv → (2 <= length (typedSequence s))%nat →
  canvas (refresh s) =
    Some {| cwidth := cwidth cv; cheight := cheight cv;
            painted := [withPath (polyline (typedSequence s)
                                    (keyPositions (calculateKeyPositions s)))
                          (applyLineStyle (lines (settings s)) c)] |}.
Proof.
  intros Hc Hcv Hlen. unfold refresh.
  destruct (calculate_inputs s) as (Hin & Hcv' & Hc').
  unfold drawInputs in Hin. injection Hin as Hseq Hset _.
  rewrite (redrawLines_stroke (calculateKeyPositions s) c cv); [| congruence | congruence | ].
  - now rewrite Hseq, Hset.
  - now rewrite Hseq.
Qed.

(** X10. A letter key schedules a refresh 10 ms later.  From every state,
    once at least 10 ms have passed after a letter with no other event, the
    canvas, context and registry are those of one recalculation and redraw of
    the page as the letter left it; with a canvas, a context and an earlier
    letter, the stroke on the canvas runs through all typed letters, the new one
    included, at the recalculated positions. *)
Theorem letter_redraws_after_delay (s : State) (key : string) (dt : Z) :
  isLetterKey key = true →
  10 <= dt →
  drawing (elapse dt (handleKeyPress key s)) = drawing (refresh (handleKeyPress key s)) ∧
  keyPositions (elapse dt (handleKeyPress key s)) = keyPositions (calculateKeyPositions s) ∧
  (∀ c cv, ctx s = Some c → canvas s = Some cv → typedSequence s ≠ [] →
     strokedPath (elapse dt (handleKeyPress key s))
       = Some (polyline (typedSequence s ++ [toUpperCase key])
                        (keyPositions (calculateKeyPositions s)))).
Proof.
  intros Hk Hdt. rewrite (handleKeyPress_letter key s Hk).
  set (s1 := addLetter (toUpperCase key) s).
  destruct (addLetter_surface (toUpperCase key) s) as (Hc & Hcv & Hkp & Hdom & Hnow & Hin).
  destruct (addLetter_typed (toUpperCase key) s) as [Hseq _].
  fold s1 in Hc, Hcv, Hkp, Hdom, Hnow, Hin, Hseq. clearbody s1.
  assert (Hdue : redrawDue (now s1 + Z.max 0 dt) (timers s1) = true).
  { apply (redrawDue_true _ _ _ Hin); [reflexivity |]. cbn [due]. lia. }
  destruct (elapse_drawing dt s1) as [_ Hd]. rewrite Hdue in Hd.
  assert (Hkp1 : keyPositions (refresh s1) = keyPositions (calculateKeyPositions s)).
  { unfold refresh. destruct (redrawLines_inputs (calculateKeyPositions s1)) as [_ ->].
    now apply calculate_keyPositions_ext. }
  split; [exact Hd |]. split.
  - rewrite (drawing_keyPositions _ _ Hd). exact Hkp1.
  - intros c cv Hctx Hcanvas Hne. unfold strokedPath.
    rewrite (drawing_canvas _ _ Hd).
    rewrite (refresh_stroke s1 c cv); [| congruence | congruence |].
    + assert (E : keyPositions (calculateKeyPositions s1)
                  = keyPositions (calculateKeyPositions s))
        by (apply calculate_keyPositions_ext; assumption).
      rewrite Hseq, E. reflexivity.
    + rewrite Hseq, length_app. cbn [length].
      destruct (typedSequence s); [congruence | cbn [length]; lia].
Qed.

Lemma letter_redraws_after_delay_witness :
  strokedPath (elapse 10 (handleKeyPress "e" topRowPage))
    = Some (polyline (typedSequence topRowPage ++ ["E"])
                     (keyPositions (calculateKeyPositions topRowPage))).
Proof.
  destruct (letter_redraws_after_delay topRowPage "e" 10) as (_ & _ & H);
    [reflexivity | lia |].
  eapply H; vm_compute; [reflexivity | reflexivity | discriminate].
Defined.

(** X11. A settings change schedules the same refresh.  From every state,
    once at least 10 ms have passed after the change with no other event, the
    drawing is that of one recalculation and redraw under the new settings;
    with a canvas, a context and two or more letters, the canvas holds one
    stroke, styled by the new line settings. *)
Theorem settings_change_redraws (s : State) (st : Settings) (dt : Z) :
  10 <= dt →
  settings (replay [ChangeSettings st; Elapse dt] s) = st ∧
  drawing (replay [ChangeSettings st; Elapse dt] s) = drawing (refresh (with_settings st s)) ∧
  (∀ c cv, ctx s = Some c → canvas s = Some cv → (2 <= length (typedSequence s))%nat →
     (painted <$> canvas (replay [ChangeSettings st; Elapse dt] s))
       = Some [withPath (polyline (typedSequence s) (keyPositions (calculateKeyPositions s)))
                 (applyLineStyle (lines st) c)]).
Proof.
  intros Hdt. cbn [replay foldl handle]. set (s1 := updateSettings (with_settings st s)).
  assert (Hin : In {| tid := nextTimerId s; due := now s + 10; cb := CbRedraw |} (timers s1))
    by (subst s1; unfold updateSettings; cbn; rewrite in_app_iff; cbn; tauto).
  assert (Hdue : redrawDue (now s1 + Z.max 0 dt) (timers s1) = true).
  { apply (redrawDue_true _ _ _ Hin); [reflexivity |].
    change (now s1) with (now s). cbn [due]. lia. }
  destruct (elapse_drawing dt s1) as [Hi Hd]. rewrite Hdue in Hd.
  assert (Hr : drawing (refresh s1) = drawing (refresh (with_settings st s)))
    by (apply refresh_ext; reflexivity).
  split; [| split].
  - unfold drawInputs in Hi. injection Hi as _ Hset _. exact Hset.
  - now rewrite Hd.
  - intros c cv Hc Hcv Hlen. rewrite (drawing_canvas _ _ Hd), (drawing_canvas _ _ Hr).
    rewrite (refresh_stroke (with_settings st s) c cv Hc Hcv Hlen).
    rewrite (calculate_keyPositions_ext (with_settings st s) s eq_refl eq_refl).
    reflexivity.
Qed.

Lemma settings_change_redraws_witness :
  settings (replay [ChangeSettings defaultSettings; Elapse 10] topRowPage) = defaultSettings.
Proof. apply (settings_change_redraws topRowPage defaultSettings 10). lia. Defined.

(** ** Resize *)

(** X12. A window resize on a page with a canvas and a context gives the
    canvas the new size, recalculates the key positions and redraws: the
    canvas holds the stroke through the typed letters at the recalculated
    positions, drawn from a fresh context, or nothing below two letters. *)
Theorem resize_refreshes (s : State) (c : Context2D) (cv : Canvas) (w h : Q) :
  ctx s = Some c →
  canvas s = Some cv →
  canvas (handleResize w h s) =
    Some {| cwidth := w; cheight := h;
            painted :=
              if Nat.leb 2 (length (typedSequence s))
              then [withPath (polyline (typedSequence s)
                                (keyPositions (calculateKeyPositions s)))
                      (applyLineStyle (lines (settings s)) freshContext)]
              else [] |} ∧
  keyPositions (handleResize w h s) = keyPositions (calculateKeyPositions s) ∧
  typedSequence (handleResize w h s) = typedSequence s.
Proof.
  intros Hc Hcv. unfold handleResize. rewrite Hc, Hcv.
  set (s0 := sizeCanvas w h s). fold (refresh s0).
  assert (Hkp : keyPositions (calculateKeyPositions s0) = keyPositions (calculateKeyPositions s))
    by (apply calculate_keyPositions_ext; reflexivity).
  destruct (redrawLines_inputs (calculateKeyPositions s0)) as [Hin Hk].
  destruct (calculate_inputs s0) as (Hin0 & Hcv0 & Hc0).
  split; [| split].
  - destruct (Nat.leb_spec 2 (length (typedSequence s))) as [Hge | Hlt].
    + rewrite (refresh_stroke s0 freshContext {| cwidth := w; cheight := h; painted := [] |});
        [| reflexivity | reflexivity | exact Hge].
      rewrite Hkp. reflexivity.
    + unfold refresh.
      rewrite (redrawLines_short (calculateKeyPositions s0) freshContext
                 {| cwidth := w; cheight := h; painted := [] |});
        [reflexivity | now rewrite Hc0 | now rewrite Hcv0 |].
      unfold drawInputs in Hin0. injection Hin0 as -> _ _. exact Hlt.
  - unfold refresh. now rewrite Hk, Hkp.
  - unfold refresh.
    destruct (redrawLines_typed (calculateKeyPositions s0)) as [-> _].
    destruct (calculateKeyPositions_typed s0) as [-> _]. reflexivity.
Qed.

Lemma resize_refreshes_witness :
  keyPositions (handleResize 1024 768 topRowPage)
    = keyPositions (calculateKeyPositions topRowPage).
Proof.
  edestruct (resize_refreshes topRowPage) as (_ & H & _).
  - vm_compute. reflexivity.
  - vm_compute. reflexivity.
  - exact H.
Defined.

(** ** A page without a drawing context *)

Lemma refresh_no_context u :
  ctx u = None → ctx (refresh u) = None ∧ canvas (refresh u) = canvas u.
Proof.
  intros H. destruct (calculate_inputs u) as (_ & Hcv & Hc).
  unfold refresh. rewrite redrawLines_unavailable by (left; congruence).
  split; congruence.
Qed.

Lemma drawing_ctx s1 s2 : drawing s1 = drawing s2 → ctx s1 = ctx s2.
Proof. unfold drawing. now intros [= _ -> _]. Qed.

Lemma fire_no_context t rest u :
  ctx u = None → ctx (fire t rest u) = None ∧ canvas (fire t rest u) = canvas u.
Proof.
  intros H. destruct (fire_drawing t rest u) as [_ Hd].
  destruct (refresh_no_context u H) as [Hc Hcv].
  destruct (isFadeKind t).
  - rewrite (drawing_ctx _ _ Hd), (drawing_canvas _ _ Hd). now split.
  - rewrite (drawing_ctx _ _ Hd), (drawing_canvas _ _ Hd). now split.
Qed.

Lemma runTimers_no_context target fuel : ∀ u,
  ctx u = None →
  ctx (runTimers fuel target u) = None ∧ canvas (runTimers fuel target u) = canvas u.
Proof.
  induction fuel as [|fuel IH]; intros u H; cbn [runTimers]; [now split |].
  destruct (popDue target (timers u)) as [[t rest]|]; [| now split].
  destruct (fire_no_context t rest u H) as [Hc Hcv].
  destruct (IH (fire t rest u) Hc) as [-> ->]. now split.
Qed.

Lemma resetFade_surface s : ctx (resetFade s) = ctx s ∧ canvas (resetFade s) = canvas s.
Proof. unfold resetFade. destruct (fadeTimeout s), (exportTimeout s); split; reflexivity. Qed.

Lemma handleKeyPress_no_context key s :
  ctx s = None →
  ctx (handleKeyPress key s) = None ∧ canvas (handleKeyPress key s) = canvas s.
Proof.
  intros H. unfold handleKeyPress.
  destruct (matchSingleUpper (toUpperCase key)).
  { destruct (addLetter_surface (toUpperCase key) s) as (-> & -> & _). now split. }
  destruct (String.eqb (toUpperCase key) " ").
  { unfold addSpace. destruct (Nat.ltb 0 _ && _)%bool; [| now split].
    set (s1 := with_currentText _ s).
    destruct (resetFade_surface s1) as [Hc Hcv].
    cbn [startFadeTimer]. split; [exact (eq_trans Hc H) | exact Hcv]. }
  destruct (String.eqb (toUpperCase key) "BACKSPACE").
  { unfold removeLetter. destruct (Nat.ltb 0 (String.length (currentText s))); [| now split].
    set (s1 := with_currentText _ s).
    set (s2 := if matchAnyLetter _ then _ else s1).
    assert (H2 : ctx s2 = None ∧ canvas s2 = canvas s)
      by (subst s2 s1; destruct (matchAnyLetter _); now split).
    destruct H2 as [Hc2 Hcv2].
    cbv zeta. rewrite (redrawLines_unavailable s2) by (left; exact Hc2).
    destruct (resetFade_surface s2) as [Hc Hcv].
    destruct (Nat.ltb 0 _); (split; [exact (eq_trans Hc Hc2) | exact (eq_trans Hcv Hcv2)]). }
  destruct (String.eqb (toUpperCase key) "ENTER"); [| now split].
  unfold confirmTyping. destruct (fadeTimeout s), (exportTimeout s); now split.
Qed.

Lemma handle_no_context e s :
  isContextMount e = false → ctx s = None →
  ctx (handle e s) = None ∧ canvas (handle e s) = canvas s.
Proof.
  intros He H. destruct e; cbn [handle].
  - now apply handleKeyPress_no_context.
  - destruct (inLayout letter); [| now split].
    destruct (addLetter_surface letter s) as (-> & -> & _). now split.
  - unfold handleMouseEnter. cbv zeta.
    destruct (fadeTimeout (with_isHovering true s)), (exportTimeout (with_isHovering true s));
      now split.
  - unfold handleMouseLeave. cbv zeta. destruct (Nat.ltb 0 _); now split.
  - destruct (showExportButtons s); [| now split]. unfold exportAsSVG.
    destruct (Nat.ltb _ 2); now split.
  - destruct (showExportButtons s); [| now split]. unfold exportAsPNG.
    destruct (canvas s) eqn:E; (split; [exact H | exact E]).
  - now split.
  - now split.
  - unfold onMount. destruct (canvas s) eqn:Hcv; [| now split].
    destruct has2d; [discriminate |]. now split.
  - unfold handleResize. rewrite H. destruct (canvas s) eqn:E; (split; [exact H | exact E]).
  - now split.
  - now apply runTimers_no_context.
  - destruct s as [cv c sq tx kv op sh st ft et ho se kp nw ts nx dm dl].
    cbn [ctx] in H. subst c. unfold clearCanvas.
    destruct ft, et; split; reflexivity.
Qed.

(** X13. A page that has no drawing context never draws: as long as no mount
    obtains a context, no event whatsoever creates one or changes the canvas,
    its content included. *)
Theorem without_context_never_draws (evs : list Event) (s : State) :
  ctx s = None →
  forallb (λ e, negb (isContextMount e)) evs = true →
  ctx (replay evs s) = None ∧ canvas (replay evs s) = canvas s.
Proof.
  revert s. induction evs as [|e evs IH]; intros s H Hevs; [now split |].
  cbn [forallb] in Hevs. apply andb_prop in Hevs as [He Hevs].
  apply negb_true_iff in He.
  destruct (handle_no_context e s He H) as [Hc Hcv].
  change (replay (e :: evs) s) with (replay evs (handle e s)).
  destruct (IH (handle e s) Hc Hevs) as [-> ->]. now split.
Qed.

Lemma without_context_never_draws_witness :
  ctx (replay [Mount false 800 600; KeyDown "a"; KeyDown "b"; Elapse 10; Resize 640 480]
         (initial (Some blankCanvas) None)) = None ∧
  canvas (replay [Mount false 800 600; KeyDown "a"; KeyDown "b"; Elapse 10; Resize 640 480]
            (initial (Some blankCanvas) None)) = Some blankCanvas.
Proof.
  apply (without_context_never_draws
           [Mount false 800 600; KeyDown "a"; KeyDown "b"; Elapse 10; Resize 640 480]
           (initial (Some blankCanvas) None)); reflexivity.
Defined.

(** ** Exports *)

Lemma refresh_downloads u : downloads (refresh u) = downloads u.
Proof.
  unfold refresh, redrawLines, calculateKeyPositions.
  destruct u as [cv c sq tx kv op sh st ft et ho se kp nw ts nx dm dl].
  cbv [dom ctx canvas with_keyPositions typedSequence settings keyPositions].
  destruct dm, c, cv; try reflexivity;
    destruct (Nat.eqb (length sq) 0); try reflexivity;
    destruct (Nat.leb 2 (length sq)); reflexivity.
Qed.

Lemma fire_downloads t rest u : downloads (fire t rest u) = downloads u.
Proof.
  unfold fire. destruct (cb t); cbn [runCallback].
  - fold (refresh (with_now (Z.max (now u) (due t)) (with_timers rest u))).
    now rewrite refresh_downloads.
  - unfold fadeFired. now destruct (isHovering _).
  - unfold revealFired. now destruct (negb _ && _)%bool.
Qed.

Lemma runTimers_downloads target fuel : ∀ u, downloads (runTimers fuel target u) = downloads u.
Proof.
  induction fuel as [|fuel IH]; intros u; cbn [runTimers]; [reflexivity |].
  destruct (popDue target (timers u)) as [[t rest]|]; [| reflexivity].
  now rewrite IH, fire_downloads.
Qed.

Lemma handleKeyPress_downloads key s : downloads (handleKeyPress key s) = downloads s.
Proof.
  unfold handleKeyPress.
  destruct (matchSingleUpper (toUpperCase key)).
  { destruct s as [cv c sq tx kv op sh st ft et ho se kp nw ts nx dm dl].
    unfold addLetter, resetFade. destruct ft, et; reflexivity. }
  destruct (String.eqb (toUpperCase key) " ").
  { unfold addSpace. destruct (Nat.ltb 0 _ && _)%bool; [| reflexivity].
    unfold resetFade. cbv zeta.
    destruct (fadeTimeout (with_currentText (currentText s +:+ " ") s)),
             (exportTimeout (with_currentText (currentText s +:+ " ") s)); reflexivity. }
  destruct (String.eqb (toUpperCase key) "BACKSPACE").
  { unfold removeLetter. destruct (Nat.ltb 0 (String.length (currentText s))); [| reflexivity].
    set (s1 := with_currentText _ s).
    set (s2 := if matchAnyLetter _ then _ else s1).
    assert (H2 : downloads s2 = downloads s)
      by (subst s2 s1; now destruct (matchAnyLetter _)).
    assert (H3 : downloads (redrawLines s2) = downloads s2).
    { unfold redrawLines. destruct (ctx s2), (canvas s2); try reflexivity.
      destruct (Nat.eqb _ 0); [reflexivity |]. now destruct (Nat.leb 2 _). }
    assert (H4 : downloads (resetFade (redrawLines s2)) = downloads (redrawLines s2)).
    { unfold resetFade.
      destruct (fadeTimeout (redrawLines s2)), (exportTimeout (redrawLines s2)); reflexivity. }
    cbv zeta.
    destruct (Nat.ltb 0 _);
      [change (downloads (resetFade (redrawLines s2)) = downloads s) |]; congruence. }
  destruct (String.eqb (toUpperCase key) "ENTER"); [| reflexivity].
  unfold confirmTyping. destruct (fadeTimeout s), (exportTimeout s); reflexivity.
Qed.

Lemma handle_downloads e s :
  isExportClick e = false → downloads (handle e s) = downloads s.
Proof.
  intros He. destruct e; cbn [handle]; try discriminate.
  - apply handleKeyPress_downloads.
  - destruct (inLayout letter); [| reflexivity].
    destruct s as [cv c sq tx kv op sh st ft et ho se kp nw ts nx dm dl].
    unfold addLetter, resetFade. destruct ft, et; reflexivity.
  - unfold handleMouseEnter. cbv zeta.
    destruct (fadeTimeout (with_isHovering true s)), (exportTimeout (with_isHovering true s));
      reflexivity.
  - unfold handleMouseLeave. cbv zeta. now destruct (Nat.ltb 0 _).
  - reflexivity.
  - reflexivity.
  - unfold onMount. destruct (canvas s); [| reflexivity]. destruct has2d; [| reflexivity].
    unfold calculateKeyPositions. cbn [dom sizeCanvas with_ctx with_canvas].
    now destruct (dom s).
  - unfold handleResize. destruct (canvas s), (ctx s); try reflexivity.
    fold (refresh (sizeCanvas w h s)). now rewrite refresh_downloads.
  - reflexivity.
  - apply runTimers_downloads.
  - destruct s as [cv c sq tx kv op sh st ft et ho se kp nw ts nx dm dl].
    unfold clearCanvas. destruct ft, et, c, cv; reflexivity.
Qed.

(** X14. Files come from export clicks only, and only while the export
    buttons show: any other event leaves the list of downloads as it is, an
    export click on a page whose buttons are hidden does too, and no event
    hands out more than one file or touches an earlier one. *)
Theorem files_only_from_visible_export_buttons (e : Event) (s : State) :
  (if (isExportClick e && showExportButtons s)%bool
   then ∃ rest, downloads (handle e s) = downloads s ++ rest ∧ (length rest <= 1)%nat
   else downloads (handle e s) = downloads s).
Proof.
  destruct (isExportClick e) eqn:He; cbn [andb].
  - destruct e; try discriminate; cbn [handle]; destruct (showExportButtons s);
      try reflexivity.
    + unfold exportAsSVG. destruct (Nat.ltb _ 2).
      * exists []. split; [now rewrite app_nil_r | cbn; lia].
      * eexists. split; [reflexivity | cbn; lia].
    + unfold exportAsPNG. destruct (canvas s).
      * eexists. split; [reflexivity | cbn; lia].
      * exists []. split; [now rewrite app_nil_r | cbn; lia].
  - now apply handle_downloads.
Qed.

Lemma length_omap_le {A B} (f : A → option B) (l : list A) :
  (length (omap f l) <= length l)%nat.
Proof.
  induction l as [|a l IH]; [reflexivity |].
  cbn [omap list_omap]. destruct (f a); cbn [length]; lia.
Qed.

Lemma lineTargets_bound (pos : gmap string KeyPosition) (sq : list string) :
  (length (lineTargets sq pos) <= length sq - 1)%nat.
Proof.
  unfold lineTargets.
  etransitivity; [apply length_omap_le |].
  rewrite length_zip. destruct sq; cbn [tail length]; lia.
Qed.

(** X15. Whatever positions are known, for a page with two or more letters
    the vector export hands out the document [svgDocument]: it has one line
    command per consecutive pair with both ends resolved and one circle per
    typed letter with a known position, hence at most n - 1 line commands and
    at most n circles. *)
Theorem vector_export_counts_partial (s : State) :
  (2 <= length (typedSequence s))%nat →
  downloads (exportAsSVG s) =
    downloads s ++ [{| filename := downloadName (currentText s) ".svg";
                       body := SvgBody (svgDocument s) |}] ∧
  docLineCommands (svgDocument s)
    = length (lineTargets (typedSequence s) (keyPositions s)) ∧
  length (docCircles (svgDocument s))
    = length (omap (λ k, keyPositions s !! k) (typedSequence s)) ∧
  (docLineCommands (svgDocument s) <= length (typedSequence s) - 1)%nat ∧
  (length (docCircles (svgDocument s)) <= length (typedSequence s))%nat.
Proof.
  intros Hlen. split; [exact (exportAsSVG_file s Hlen) |].
  assert (Hl : docLineCommands (svgDocument s)
               = length (lineTargets (typedSequence s) (keyPositions s))).
  { unfold docLineCommands. rewrite svgDocument_paths.
    cbn [map d]. rewrite polyline_lineTos, length_map.
    unfold list_sum. cbn [fold_right]. lia. }
  assert (Hc : length (docCircles (svgDocument s))
               = length (omap (λ k, keyPositions s !! k) (typedSequence s)))
    by (now rewrite svgDocument_circles, length_map).
  split; [exact Hl |]. split; [exact Hc |]. split.
  - rewrite Hl. apply lineTargets_bound.
  - rewrite Hc. apply length_omap_le.
Qed.

Lemma vector_export_counts_partial_witness :
  docLineCommands (svgDocument sparsePage) = 1%nat ∧
  length (docCircles (svgDocument sparsePage)) = 3%nat.
Proof.
  destruct (vector_export_counts_partial sparsePage) as (_ & Hl & Hc & _).
  - vm_compute. lia.
  - rewrite Hl, Hc. vm_compute. split; reflexivity.
Defined.

(** X16. The exported document always holds exactly one path element, even
    when no pair is resolved; the blur filter definition is present exactly
    when glow is on, and the path and every circle refer to the filter exactly
    then; path and circles take their colour from the line settings. *)
Theorem vector_document_structure (s : State) :
  length (docPaths (svgDocument s)) = 1%nat ∧
  (In GlowDefs (elems (svgDocument s)) ↔ glow (lines (settings s)) = true) ∧
  Forall (λ p, path_filter p = glow (lines (settings s)) ∧ stroke p = color (lines (settings s))
               ∧ stroke_width p = width (lines (settings s)))
         (docPaths (svgDocument s)) ∧
  Forall (λ c, circle_filter c = glow (lines (settings s)) ∧ fill c = color (lines (settings s)))
         (docCircles (svgDocument s)).
Proof.
  split; [now rewrite svgDocument_paths |]. split; [| split].
  - unfold svgDocument. cbn [elems]. rewrite !in_app_iff.
    assert (Hm : ¬ In GlowDefs (markers (typedSequence s) (keyPositions s) (lines (settings s)))).
    { unfold markers. induction (typedSequence s) as [|k sq IH]; [intros [] |].
      cbn [map concat]. rewrite in_app_iff. intros [H | H]; [| exact (IH H)].
      destruct (keyPositions s !! k); [destruct H as [H | []]; discriminate | destruct H]. }
    destruct (glow (lines (settings s))); split; intros H.
    + reflexivity.
    + left. left. reflexivity.
    + destruct H as [[] | [[H | []] | H]]; [discriminate | contradiction].
    + discriminate.
  - rewrite svgDocument_paths. repeat constructor.
  - rewrite svgDocument_circles. apply List.Forall_forall.
    intros c Hc. apply in_map_iff in Hc as (p & <- & _). split; reflexivity.
Qed.

(** ** File names *)

Lemma replaceSpaces_no_space text : ∀ inrun, hasSpace (replaceSpaces inrun text) = false.
Proof.
  unfold hasSpace. induction text as [|c text IH]; intros inrun; [reflexivity |].
  cbn [replaceSpaces]. destruct (is_space c) eqn:Hc.
  - destruct inrun; [apply IH |].
    cbn [list_ascii_of_string existsb]. now rewrite IH.
  - cbn [list_ascii_of_string existsb]. now rewrite Hc, IH.
Qed.

Lemma lower_or_space_class c :
  (is_lower c || Ascii.eqb c " ")%bool = true → is_space c = Ascii.eqb c " ".
Proof. ascii_cases c. Qed.

Lemma replaceSpaces_hyphenate text : ∀ inrun,
  lowerOrSpace text = true → noDoubleSpace text = true →
  (inrun = true → noLeadingSpace text = true) →
  replaceSpaces inrun text = hyphenate text.
Proof.
  induction text as [|c text IH]; intros inrun Hlow Hdbl Hlead; [reflexivity |].
  cbn [lowerOrSpace] in Hlow. apply andb_prop in Hlow as [Hc Hlow].
  assert (Hdbl' : noDoubleSpace text = true ∧
                  (Ascii.eqb c " " = true → noLeadingSpace text = true)).
  { destruct text as [|b text]; [split; reflexivity |].
    cbn [noDoubleSpace] in Hdbl. apply andb_prop in Hdbl as [Hab Hdbl].
    split; [exact Hdbl |]. intros Hsp. rewrite Hsp in Hab. cbn [andb] in Hab.
    cbn [noLeadingSpace]. exact Hab. }
  destruct Hdbl' as [Hdbl' Hnext].
  cbn [replaceSpaces hyphenate]. rewrite (lower_or_space_class c Hc).
  destruct (Ascii.eqb c " ") eqn:Hsp.
  - destruct inrun.
    + specialize (Hlead eq_refl). cbn [noLeadingSpace] in Hlead.
      rewrite Hsp in Hlead. discriminate.
    + f_equal. apply IH; [exact Hlow | exact Hdbl' | intros _; now apply Hnext].
  - f_equal. apply IH; [exact Hlow | exact Hdbl' | discriminate].
Qed.

(** X17. The text part of an export file name never contains white space,
    whatever the display text; and on every page reached from the initial one
    the name is the display text with each space turned into one hyphen,
    between the prefix and the extension. *)
Theorem export_file_name (text ext : string) (evs : list Event) (cv : option Canvas)
    (layout : option (list (string * DOMRect))) :
  hasSpace (replaceSpaces false text) = false ∧
  downloadName (currentText (replay evs (initial cv layout))) ext
    = "typing-pattern-" +:+ hyphenate (currentText (replay evs (initial cv layout))) +:+ ext.
Proof.
  split; [apply replaceSpaces_no_space |].
  assert (Hlow : lowerOrSpace (currentText (replay evs (initial cv layout))) = true ∧
                 typedSequence (replay evs (initial cv layout))
                   = lettersOf (currentText (replay evs (initial cv layout)))).
  { apply (replay_invariant
             (λ s, lowerOrSpace (currentText s) = true ∧
                   typedSequence s = lettersOf (currentText s))
             mirror_step evs (initial cv layout)).
    split; reflexivity. }
  assert (Hsp : noLeadingSpace (currentText (replay evs (initial cv layout))) = true ∧
                noDoubleSpace (currentText (replay evs (initial cv layout))) = true).
  { apply (replay_invariant
             (λ s, noLeadingSpace (currentText s) = true ∧ noDoubleSpace (currentText s) = true)
             spacing_step evs (initial cv layout)).
    split; reflexivity. }
  unfold downloadName.
  rewrite (replaceSpaces_hyphenate _ false (proj1 Hlow) (proj2 Hsp)); [reflexivity |].
  discriminate.
Qed.

(** ** More on the fade machine *)

Lemma fire_hover t rest u :
  isHovering u = true →
  keyboardOpacity (fire t rest u) = keyboardOpacity u ∧
  showExportButtons (fire t rest u) = showExportButtons u ∧
  isHovering (fire t rest u) = true.
Proof.
  intros Hh. destruct (cb t) eqn:Hcb.
  - destruct (fire_redraw t rest u Hcb) as (_ & -> & -> & -> & _). now repeat split.
  - unfold fire. rewrite Hcb. cbn [runCallback]. unfold fadeFired.
    cbn [isHovering with_now with_timers]. rewrite Hh. now repeat split.
  - unfold fire. rewrite Hcb. cbn [runCallback]. unfold revealFired.
    cbn [isHovering with_now with_timers]. rewrite Hh. now repeat split.
Qed.

Lemma runTimers_hover target fuel : ∀ u,
  isHovering u = true →
  keyboardOpacity (runTimers fuel target u) = keyboardOpacity u ∧
  showExportButtons (runTimers fuel target u) = showExportButtons u ∧
  isHovering (runTimers fuel target u) = true.
Proof.
  induction fuel as [|fuel IH]; intros u Hh; cbn [runTimers]; [now repeat split |].
  destruct (popDue target (timers u)) as [[t rest]|]; [| now repeat split].
  destruct (fire_hover t rest u Hh) as (Ho & He & Hh').
  destruct (IH (fire t rest u) Hh') as (-> & -> & ->). now repeat split.
Qed.

Lemma handleMouseEnter_signals s :
  keyboardOpacity (handleMouseEnter s) = 1%Q ∧
  showExportButtons (handleMouseEnter s) = false ∧
  isHovering (handleMouseEnter s) = true ∧
  timers (handleMouseEnter s)
    = timers (clearTimeout (exportTimeout s) (clearTimeout (fadeTimeout s) s)) ∧
  typedSequence (handleMouseEnter s) = typedSequence s ∧
  now (handleMouseEnter s) = now s.
Proof.
  destruct s as [cv c sq tx kv op sh st ft et ho se kp nw ts nx dm dl].
  unfold handleMouseEnter. destruct ft, et; repeat split; reflexivity.
Qed.

(** X18. While the pointer is over the keyboard nothing fades: after a
    pointer-enter, however long the clock runs and whatever timers are
    pending, the machine is Active and still hovered; and on any hovered page
    the passing of time changes neither the opacity nor the export flag. *)
Theorem hover_suppresses_fade (s : State) (dt : Z) :
  fadeState (elapse dt (handle MouseEnter s)) = Some Active ∧
  isHovering (elapse dt (handle MouseEnter s)) = true ∧
  (isHovering s = true →
   keyboardOpacity (elapse dt s) = keyboardOpacity s ∧
   showExportButtons (elapse dt s) = showExportButtons s).
Proof.
  cbn [handle]. destruct (handleMouseEnter_signals s) as (Ho & He & Hh & _).
  destruct (runTimers_hover (now (handleMouseEnter s) + Z.max 0 dt)
              (fuelFor (timers (handleMouseEnter s))) (handleMouseEnter s) Hh)
    as (Ro & Re & Rh).
  split; [| split].
  - unfold fadeState, elapse. now rewrite Ro, Re, Ho, He.
  - exact Rh.
  - intros Hs.
    destruct (runTimers_hover (now s + Z.max 0 dt) (fuelFor (timers s)) s Hs) as (So & Se & _).
    now split.
Qed.

(** With no fade or reveal callback pending, the passing of time changes
    neither signal, hovered or not. *)
Lemma runTimers_quiet target fuel : ∀ u,
  fadeView (timers u) = [] →
  keyboardOpacity (runTimers fuel target u) = keyboardOpacity u ∧
  showExportButtons (runTimers fuel target u) = showExportButtons u ∧
  isHovering (runTimers fuel target u) = isHovering u ∧
  fadeView (timers (runTimers fuel target u)) = [] ∧
  typedSequence (runTimers fuel target u) = typedSequence u ∧
  Z.max (now u) target <= now (runTimers fuel target u).
Proof.
  induction fuel as [|fuel IH]; intros u Hv; cbn [runTimers].
  { repeat split; try assumption. cbn [now with_now]. lia. }
  destruct (popDue target (timers u)) as [[t rest]|] eqn:E.
  2:{ repeat split; try assumption. cbn [now with_now]. lia. }
  destruct (popDue_Some _ _ _ _ E) as (Hdue & l1 & l2 & Hts & -> & _).
  assert (Hk : isFadeKind t = false).
  { apply (fadeView_nil_inv (timers u) t Hv). rewrite Hts. apply in_elt. }
  assert (Hcb : cb t = CbRedraw).
  { unfold isFadeKind in Hk. destruct (cb t); [reflexivity | discriminate ..]. }
  destruct (fire_redraw t (l1 ++ l2) u Hcb) as (Ft & Fo & Fe & Fh & Fn).
  assert (Hv' : fadeView (timers (fire t (l1 ++ l2) u)) = []).
  { rewrite Ft, (fadeView_drop_redraw t l1 l2 Hcb), <- Hts. exact Hv. }
  destruct (IH (fire t (l1 ++ l2) u) Hv') as (-> & -> & -> & -> & Hs & Hn).
  repeat split; try assumption.
  - rewrite Hs. unfold fire.
    exact (proj1 (runCallback_typed (cb t)
                   (with_now (Z.max (now u) (due t)) (with_timers (l1 ++ l2) u)))).
  - rewrite Fn in Hn. lia.
Qed.

(** X19. Moving the pointer away restarts the fade from zero.  On a page
    whose fade and reveal callbacks are tracked, enter the keyboard, stay for
    any time, and leave: with something typed the machine is Active, Fading
    and Revealed at 0, 2000 and 3000 ms counted from the leave; with nothing
    typed it stays Active. *)
Theorem leave_restarts_fade (s : State) (d t : Z) :
  timersTracked s = true →
  0 <= t →
  fadeState (elapse t (handle MouseLeave (elapse d (handle MouseEnter s))))
    = Some (if Nat.ltb 0 (length (typedSequence s)) then expectedFade t else Active).
Proof.
  intros Htr Ht. cbn [handle].
  destruct (handleMouseEnter_signals s) as (Ho & He & Hh & Htm & Hsq & _).
  assert (Hv : fadeView (timers (handleMouseEnter s)) = [])
    by (rewrite Htm; now apply cancel_both_view).
  set (s1 := handleMouseEnter s) in *.
  destruct (runTimers_quiet (now s1 + Z.max 0 d) (fuelFor (timers s1)) s1 Hv)
    as (Qo & Qe & Qh & Qv & Qs & Qn).
  fold (elapse d s1) in Qo, Qe, Qh, Qv, Qs, Qn. set (s2 := elapse d s1) in *.
  unfold handleMouseLeave. cbv zeta.
  change (typedSequence (with_isHovering false s2)) with (typedSequence s2).
  rewrite Qs, Hsq.
  destruct (Nat.ltb 0 (length (typedSequence s))).
  - set (s3 := startFadeTimer (with_isHovering false s2)).
    assert (Hph : phase (now s2) (now s3 + Z.max 0 t) s3).
    { apply phase_active.
      - subst s3. unfold startFadeTimer, setTimeout. cbn [timers with_fadeTimeout
          with_nextTimerId with_timers with_isHovering now].
        rewrite fadeView_app, Qv. reflexivity.
      - change (now s3) with (now s2). lia.
      - change (keyboardOpacity s3) with (keyboardOpacity s2). congruence.
      - change (showExportButtons s3) with (showExportButtons s2). congruence. }
    unfold elapse.
    rewrite (runTimers_schedule (now s2) _ _ s3 (Nat.le_refl _) eq_refl Hph).
    change (now s3) with (now s2). do 2 f_equal. lia.
  - set (s3 := with_isHovering false s2).
    assert (Hv3 : fadeView (timers s3) = []) by exact Qv.
    destruct (runTimers_quiet (now s3 + Z.max 0 t) (fuelFor (timers s3)) s3 Hv3)
      as (Ro & Re & _).
    unfold fadeState, elapse. rewrite Ro, Re.
    change (keyboardOpacity s3) with (keyboardOpacity s2).
    change (showExportButtons s3) with (showExportButtons s2).
    now rewrite Qo, Qe, Ho, He.
Qed.

Lemma leave_restarts_fade_witness :
  fadeState (elapse 2500 (handle MouseLeave (elapse 700 (handle MouseEnter oneLetterPage))))
    = Some Fading.
Proof.
  apply (leave_restarts_fade oneLetterPage 700 2500); [reflexivity | lia].
Defined.

(** X20. Confirmed and cleared pages stay as they are.  On a page whose fade
    and reveal callbacks are tracked, after Enter the machine is Confirmed
    however long the clock runs, and after [clearCanvas] it is Active however
    long the clock runs. *)
Theorem confirmed_and_cleared_are_stable (s : State) (dt : Z) :
  timersTracked s = true →
  fadeState (elapse dt (handleKeyPress "Enter" s)) = Some Confirmed ∧
  fadeState (elapse dt (clearCanvas s)) = Some Active.
Proof.
  intros Htr. split.
  - rewrite handleKeyPress_enter.
    assert (Hv : fadeView (timers (confirmTyping s)) = [])
      by (rewrite confirmTyping_timers; now apply cancel_both_view).
    destruct (runTimers_quiet (now (confirmTyping s) + Z.max 0 dt)
                (fuelFor (timers (confirmTyping s))) (confirmTyping s) Hv) as (Ro & Re & _).
    unfold fadeState, elapse. rewrite Ro, Re.
    unfold confirmTyping. destruct (fadeTimeout s), (exportTimeout s); reflexivity.
  - assert (Hv : fadeView (timers (clearCanvas s)) = [])
      by (rewrite clearCanvas_timers; now apply cancel_both_view).
    destruct (runTimers_quiet (now (clearCanvas s) + Z.max 0 dt)
                (fuelFor (timers (clearCanvas s))) (clearCanvas s) Hv) as (Ro & Re & _).
    destruct (clearCanvas_fade s) as [Co Ce].
    unfold fadeState, elapse. now rewrite Ro, Re, Co, Ce.
Qed.

Lemma confirmed_and_cleared_are_stable_witness :
  fadeState (elapse 60000 (handleKeyPress "Enter" oneLetterPage)) = Some Confirmed ∧
  fadeState (elapse 60000 (clearCanvas oneLetterPage)) = Some Active.
Proof. apply (confirmed_and_cleared_are_stable oneLetterPage 60000). reflexivity. Defined.

(** X21. Without pointer events only one fade sequence is ever live: on every
    page reached from the initial one by key presses, clicks, settings
    changes, mounts, resizes, clears and the passing of time, at most one fade
    or reveal callback is pending, and it is the one its handle refers to. *)
Theorem one_fade_sequence_without_hover (evs : list Event) (cv : option Canvas)
    (layout : option (list (string * DOMRect))) :
  forallb noHoverEvent evs = true →
  (length (fadeView (timers (replay evs (initial cv layout)))) <= 1)%nat ∧
  timersTracked (replay evs (initial cv layout)) = true.
Proof.
  intros Hevs.
  assert (H : ∀ s, fadeTidy s → fadeTidy (replay evs s)).
  { induction evs as [|e evs IH]; intros s Hs; [exact Hs |].
    cbn [forallb] in Hevs. apply andb_prop in Hevs as [He Hevs].
    apply (IH Hevs (handle e s)), handle_tidy; assumption. }
  destruct (H (initial cv layout)) as (_ & Htr & Hlen).
  - apply tidy_no_fade; reflexivity.
  - split; assumption.
Qed.

Lemma one_fade_sequence_without_hover_witness :
  (length (fadeView (timers (replay [KeyDown "a"; Elapse 2100; KeyDown "b"]
                               (initial None None)))) <= 1)%nat.
Proof.
  apply (one_fade_sequence_without_hover [KeyDown "a"; Elapse 2100; KeyDown "b"] None None).
  reflexivity.
Defined.

(** ** The fade signals are always in a named state *)

Lemma named_active s :
  keyboardOpacity s = 1%Q → showExportButtons s = false → namedSignals s.
Proof. intros Ho He. left. now split. Qed.

Lemma named_same s s' :
  keyboardOpacity s' = keyboardOpacity s → showExportButtons s' = showExportButtons s →
  namedSignals s → namedSignals s'.
Proof. unfold namedSignals. intros -> ->. tauto. Qed.

Lemma addLetter_signals letter s :
  keyboardOpacity (addLetter letter s) = 1%Q ∧ showExportButtons (addLetter letter s) = false.
Proof.
  destruct s as [cv c sq tx kv op sh st ft et ho se kp nw ts nx dm dl].
  unfold addLetter, resetFade. destruct ft, et; split; reflexivity.
Qed.

Lemma handleKeyPress_named key s : namedSignals s → namedSignals (handleKeyPress key s).
Proof.
  intros Hn. unfold handleKeyPress.
  destruct (matchSingleUpper (toUpperCase key)).
  { destruct (addLetter_signals (toUpperCase key) s). now apply named_active. }
  destruct (String.eqb (toUpperCase key) " ").
  { unfold addSpace. destruct (Nat.ltb 0 _ && _)%bool; [| exact Hn].
    destruct (resetFade_fade (with_currentText (currentText s +:+ " ") s)) as (_ & Ho & He & _).
    apply named_active; [exact Ho | exact He]. }
  destruct (String.eqb (toUpperCase key) "BACKSPACE").
  { unfold removeLetter. destruct (Nat.ltb 0 (String.length (currentText s))); [| exact Hn].
    cbv zeta.
    match goal with |- context [resetFade ?x] =>
      destruct (resetFade_fade x) as (_ & Ho & He & _) end.
    destruct (Nat.ltb 0 _); (apply named_active; [exact Ho | exact He]). }
  destruct (String.eqb (toUpperCase key) "ENTER"); [| exact Hn].
  right. right. unfold confirmTyping.
  destruct (fadeTimeout s), (exportTimeout s); split; reflexivity.
Qed.

Lemma fire_named t rest u : namedSignals u → namedSignals (fire t rest u).
Proof.
  intros Hn. destruct (cb t) eqn:Hcb.
  - destruct (fire_redraw t rest u Hcb) as (_ & Ho & He & _).
    exact (named_same u _ Ho He Hn).
  - unfold fire. rewrite Hcb. cbn [runCallback]. unfold fadeFired.
    cbn [isHovering with_now with_timers]. destruct (isHovering u).
    + exact Hn.
    + right. left. reflexivity.
  - unfold fire. rewrite Hcb. cbn [runCallback]. unfold revealFired.
    cbn [isHovering keyboardOpacity with_now with_timers].
    destruct (negb (isHovering u) && Qeq_bool (keyboardOpacity u) (3 # 10))%bool eqn:Hc;
      [| exact Hn].
    apply andb_prop in Hc as [_ Hq].
    destruct Hn as [[Ho _] | [Ho | [Ho _]]].
    + rewrite Ho in Hq. discriminate.
    + right. left. exact Ho.
    + rewrite Ho in Hq. discriminate.
Qed.

Lemma runTimers_named target fuel : ∀ u, namedSignals u → namedSignals (runTimers fuel target u).
Proof.
  induction fuel as [|fuel IH]; intros u Hn; cbn [runTimers]; [exact Hn |].
  destruct (popDue target (timers u)) as [[t rest]|]; [| exact Hn].
  apply IH, fire_named, Hn.
Qed.

Lemma handle_named e s : namedSignals s → namedSignals (handle e s).
Proof.
  intros Hn. destruct e; cbn [handle].
  - now apply handleKeyPress_named.
  - destruct (inLayout letter); [| exact Hn].
    destruct (addLetter_signals letter s). now apply named_active.
  - destruct (handleMouseEnter_signals s) as (Ho & He & _). now apply named_active.
  - unfold handleMouseLeave. cbv zeta. destruct (Nat.ltb 0 _); exact Hn.
  - destruct (showExportButtons s) eqn:E; [| exact Hn]. unfold exportAsSVG.
    destruct (Nat.ltb _ 2); [exact Hn |]. apply (named_same s); [reflexivity .. | exact Hn].
  - destruct (showExportButtons s) eqn:E; [| exact Hn]. unfold exportAsPNG.
    destruct (canvas s); [| exact Hn]. apply (named_same s); [reflexivity .. | exact Hn].
  - exact Hn.
  - exact Hn.
  - unfold onMount. destruct (canvas s); [| exact Hn]. destruct has2d; [| exact Hn].
    destruct (calculate_frame (sizeCanvas w h s)) as (_ & Ho & He & _).
    exact (named_same s _ Ho He Hn).
  - unfold handleResize. destruct (canvas s), (ctx s); try exact Hn.
    destruct (redraw_frame (calculateKeyPositions (sizeCanvas w h s))) as (_ & Ro & Re & _).
    destruct (calculate_frame (sizeCanvas w h s)) as (_ & Co & Ce & _).
    apply (named_same s); [now rewrite Ro, Co | now rewrite Re, Ce | exact Hn].
  - exact Hn.
  - now apply runTimers_named.
  - destruct (clearCanvas_fade s) as [Ho He]. now apply named_active.
Qed.

(** X22. Whatever the events, pointer events included, the opacity and the
    export flag always form one of the four named states: Active (1, hidden),
    Fading (0.3, hidden), Revealed (0.3, visible) or Confirmed (0.1, visible).
    The export buttons never show at full opacity, and the keyboard is never
    at opacity 0.1 with the buttons hidden. *)
Theorem fade_signals_always_named (evs : list Event) (cv : option Canvas)
    (layout : option (list (string * DOMRect))) :
  fadeSignalsNamed (replay evs (initial cv layout)) = true ∧
  fadeState (replay evs (initial cv layout)) ≠ None.
Proof.
  assert (H : ∀ s, namedSignals s → namedSignals (replay evs s)).
  { induction evs as [|e evs IH]; intros s Hs; [exact Hs |].
    apply (IH (handle e s)), handle_named, Hs. }
  assert (Hn : namedSignals (replay evs (initial cv layout)))
    by (apply H, named_active; reflexivity).
  assert (Hs : ∃ f, fadeState (replay evs (initial cv layout)) = Some f).
  { unfold fadeState. destruct Hn as [[Ho He] | [Ho | [Ho He]]]; rewrite Ho.
    - rewrite He. eexists; reflexivity.
    - destruct (showExportButtons _); eexists; reflexivity.
    - rewrite He. eexists; reflexivity. }
  destruct Hs as [f Hf]. unfold fadeSignalsNamed. rewrite Hf. split; [reflexivity | discriminate].
Qed.

(** ** Key classes *)

(** X23. Whatever the settings, the class attribute of an on-screen key
    carries the class [key], which the position calculation selects on, and
    exactly one of the three shape classes. *)
Theorem key_classes_well_formed (s : State) :
  In "key" (classNames "" (getKeyClasses s)) ∧
  length (List.filter (λ c, existsb (String.eqb c) shapeClasses)
            (classNames "" (getKeyClasses s))) = 1%nat.
Proof.
  unfold getKeyClasses.
  destruct (theme (keyboard (settings s))), (keyShape (keyboard (settings s))),
    (is3D (keyboard (settings s))); vm_compute; split; try reflexivity; tauto.
Qed.
